(** * Tabular architecture comparison: a shallow embedding

    This development embeds [compare_architectures_tabular.py] (class
    [TabularArchitectureComparator]) and proves properties of its
    normalizer, its four level differencers, its rationale extractor and
    its orchestrator.

    Conventions of the embedding.
    - A Python [str] is a [string]; every character stands for the code
      point of the same number (0..255).  [lower], [strip] and the
      ordering used by [sorted] are the Python ones on these code points.
    - A Python [dict] that the program iterates with [.items()] is an
      insertion-ordered association list ([dict]); a [dict] that is only
      read with [.get], [==] and [set(d.keys())] is a [gmap].
    - A Python [set] is a [gset]; the order in which a [for] loop visits a
      set is not fixed by the language (string hashes are salted per
      interpreter run), so it is a parameter [set_iter] of the comparator.
    - [print] calls write to the console only and are left out. *)

From Stdlib Require Import Ascii String.
From stdpp Require Import gmap strings list fin_maps sorting pretty.

(** ** Python string primitives *)

Module PyStr.

(** [c.isspace()] for a code point below 256. *)
Definition isspace (c : ascii) : bool :=
  let n := nat_of_ascii c in
  ((9 <=? n)%nat && (n <=? 13)%nat) || ((28 <=? n)%nat && (n <=? 32)%nat)
  || (n =? 133)%nat || (n =? 160)%nat.

(** [c.lower()] for a code point below 256: A-Z, and the capital
    letters of the Latin-1 block (all of 192..222 but the sign 215). *)
Definition lower_char (c : ascii) : ascii :=
  let n := nat_of_ascii c in
  if ((65 <=? n)%nat && (n <=? 90)%nat)
     || ((192 <=? n)%nat && (n <=? 222)%nat && negb (n =? 215)%nat)
  then ascii_of_nat (n + 32) else c.

Fixpoint lower (s : string) : string :=
  match s with
  | EmptyString => EmptyString
  | String c s' => String (lower_char c) (lower s')
  end.

Fixpoint lstrip (s : string) : string :=
  match s with
  | EmptyString => EmptyString
  | String c s' => if isspace c then lstrip s' else s
  end.

Definition rstrip (s : string) : string :=
  String.rev (lstrip (String.rev s)).

Definition strip (s : string) : string := rstrip (lstrip s).

(** [p in s] *)
Fixpoint contains (p s : string) : bool :=
  String.prefix p s ||
  match s with
  | EmptyString => false
  | String _ s' => contains p s'
  end.

(** [s.endswith(p)] *)
Definition endswith (s p : string) : bool :=
  String.prefix (String.rev p) (String.rev s).

(** [s[:n]] *)
Definition take (n : nat) (s : string) : string := String.substring 0 n s.

(** [bool(s)] *)
Definition truthy (s : string) : bool :=
  match s with EmptyString => false | _ => true end.

(** [s.split(sep)] for a non-empty [sep]: [skip] counts the characters
    of a separator just found that are still to be dropped, [cur] holds
    the current piece in reverse. *)
Fixpoint split_go (sep s : string) (skip : nat) (cur : string)
  : list string :=
  match s with
  | EmptyString => [String.rev cur]
  | String c s' =>
      match skip with
      | S k => split_go sep s' k cur
      | O =>
          if String.prefix sep s
          then String.rev cur :: split_go sep s' (String.length sep - 1) ""
          else split_go sep s' 0 (String c cur)
      end
  end.

Definition split (sep s : string) : list string := split_go sep s 0 "".

(** [sep.join(l)] *)
Definition join (sep : string) (l : list string) : string :=
  String.concat sep l.

(** [sorted(l)] on strings *)
Definition sorted (l : list string) : list string :=
  merge_sort String.le l.

End PyStr.

(** ** Rationale extractor ([_extract_key_insight]) *)

Definition key_phrases : list string :=
  [ "because"; "due to"; "in order to"; "to ensure"; "chosen to";
    "selected to"; "prioritized"; "optimized for"; "designed for";
    "configured for"; "focused on"; "enables"; "allows"; "provides";
    "ensures"; "guarantees"; "supports" ].

(** [any(phrase in sentence.lower() for phrase in key_phrases)] *)
Definition has_key_phrase (sentence : string) : bool :=
  existsb (fun phrase => PyStr.contains phrase (PyStr.lower sentence))
          key_phrases.

(** [s[:150] + ("..." if len(s) > 150 else "")] *)
Definition clip150 (s : string) : string :=
  PyStr.take 150 s +:+ (if (150 <? String.length s)%nat then "..." else "").

(** The first loop: collects, in order, the stripped sentences that hold
    a key phrase, each closed by a period. *)
Definition collect_key_sentences (sentences : list string) : list string :=
  foldl (fun key_sentences sentence =>
           let sentence := PyStr.strip sentence in
           if has_key_phrase sentence
           then
             let sentence :=
               if PyStr.truthy sentence && negb (PyStr.endswith sentence ".")
               then sentence +:+ "." else sentence in
             key_sentences ++ [sentence]
           else key_sentences)
        [] sentences.

(** The second loop: returns at the first stripped sentence longer than
    30 characters. *)
Fixpoint first_meaningful (sentences : list string) : option string :=
  match sentences with
  | [] => None
  | sentence :: rest =>
      let sentence := PyStr.strip sentence in
      if (30 <? String.length sentence)%nat
      then Some (clip150 sentence)
      else first_meaningful rest
  end.

Definition _extract_key_insight (text context : string) : string :=
  if negb (PyStr.truthy text) then ""
  else
    let text := PyStr.strip text in
    let sentences := PyStr.split ". " text in
    let key_sentences := collect_key_sentences sentences in
    match key_sentences with
    | first :: _ => clip150 first
    | [] =>
        match first_meaningful sentences with
        | Some r => r
        | None => clip150 text
        end
    end.

(** ** JSON values *)

Set Warnings "-register-all".

(** The values the comparison only stores and tests with [==]: [None],
    integers, strings and lists of these.  On them Python's [==] is
    structural equality (floats and booleans, which [==] identifies with
    integers, and nested objects are left out). *)
Inductive pyval : Type :=
  | PNone
  | PInt (n : Z)
  | PStr (s : string)
  | PList (l : list pyval).

Global Instance pyval_eq_dec : EqDecision pyval.
Proof.
  refine (fix go (x y : pyval) {struct x} : Decision (x = y) :=
    match x, y with
    | PNone, PNone => left eq_refl
    | PInt a, PInt b => cast_if (decide (a = b))
    | PStr a, PStr b => cast_if (decide (a = b))
    | PList a, PList b => cast_if (@list_eq_dec _ go a b)
    | _, _ => right _
    end); clear go; abstract congruence.
Defined.

(** ** Raw documents (parsed JSON); an absent key is [None]

    Every field is read with [.get], but [architecture_id], which the
    comparator reads with [arch["architecture_id"]]: an architecture
    always carries it. *)

Module Raw.

Record Attribute := {
  attribute_codename : option string;
  attribute_values : option pyval;
  attribute_constraint_expr : option pyval;
  attribute_unit : option pyval }.

Record ServiceComponent := {
  service_component_codename : option string;
  attributes_search_space : option (list Attribute);
  number_of_instances : option Z;
  service_component_sort : option (list pyval) }.

Record ServiceSpace := {
  service_codename : option string;
  service_select_attributes : option (list pyval);
  service_components_search_spaces : option (list ServiceComponent) }.

Record Component := {
  component_id : option string;
  service_search_space : option ServiceSpace }.

Record Architecture := {
  architecture_id : string;
  components_search_space : option (list Component) }.

Record ArchitectureSet := {
  architectures : option (list Architecture) }.

Record Reasoning := {
  reasoning_service_codename : option string;
  attribute_selection_rationale : option string;
  critical_attributes_reasoning : option string;
  alternatives_considered : option (list pyval);
  service_understanding : option string }.

Record ReasoningSet := {
  reasoning_objects : option (list Reasoning) }.

(** The [{}] that [.get(key, {})] falls back to. *)
Definition empty_service_space : ServiceSpace :=
  {| service_codename := None; service_select_attributes := None;
     service_components_search_spaces := None |}.

Definition empty_reasoning : Reasoning :=
  {| reasoning_service_codename := None;
     attribute_selection_rationale := None;
     critical_attributes_reasoning := None;
     alternatives_considered := None;
     service_understanding := None |}.

Global Instance Attribute_eq_dec : EqDecision Attribute.
Proof. solve_decision. Defined.
Global Instance ServiceComponent_eq_dec : EqDecision ServiceComponent.
Proof. solve_decision. Defined.
Global Instance ServiceSpace_eq_dec : EqDecision ServiceSpace.
Proof. solve_decision. Defined.
Global Instance Component_eq_dec : EqDecision Component.
Proof. solve_decision. Defined.
Global Instance Architecture_eq_dec : EqDecision Architecture.
Proof. solve_decision. Defined.
Global Instance Reasoning_eq_dec : EqDecision Reasoning.
Proof. solve_decision. Defined.

End Raw.

(** ** Insertion-ordered dictionaries *)

Module Dict.

Definition t (V : Type) : Type := list (string * V).

Section ops.
Context {V : Type}.

(** [d.get(k)] *)
Fixpoint get (k : string) (d : t V) : option V :=
  match d with
  | [] => None
  | (k', v) :: d' => if decide (k = k') then Some v else get k d'
  end.

(** [k in d] *)
Definition mem (k : string) (d : t V) : bool :=
  match get k d with Some _ => true | None => false end.

(** [d[k] = v]: a known key keeps its place, a new key goes last. *)
Fixpoint set (k : string) (v : V) (d : t V) : t V :=
  match d with
  | [] => [(k, v)]
  | (k', v') :: d' =>
      if decide (k = k') then (k', v) :: d' else (k', v') :: set k v d'
  end.

(** In-place change of the value stored under [k] ([d[k][...] = ...]). *)
Fixpoint alter (f : V → V) (k : string) (d : t V) : t V :=
  match d with
  | [] => []
  | (k', v') :: d' =>
      if decide (k = k') then (k', f v') :: d' else (k', v') :: alter f k d'
  end.

(** [d.keys()], [d.items()] *)
Definition keys (d : t V) : list string := d.*1.
Definition items (d : t V) : list (string * V) := d.

(** [set(d.keys())] *)
Definition key_set (d : t V) : gset string := list_to_set (keys d).

(** The dictionary up to the order of its keys, as [==] sees it. *)
Definition to_map (d : t V) : gmap string V := list_to_map d.
End ops.

End Dict.

(** ** Normalized architecture *)

Record ComponentEntry := {
  component_id : string;
  service_component_codename : string;
  attributes_search_space : list Raw.Attribute;
  number_of_instances : Z;
  service_component_sort : list pyval }.

Record ServiceEntry := {
  service_codename : string;
  select_attributes : list pyval;
  components : Dict.t ComponentEntry }.

Record Structure := { services : Dict.t ServiceEntry }.

Global Instance ComponentEntry_eq_dec : EqDecision ComponentEntry.
Proof. solve_decision. Defined.

(** [services[service_codename]["components"][full_comp_name] = entry] *)
Definition store_component (service_name full_comp_name : string)
    (entry : ComponentEntry) (services : Dict.t ServiceEntry)
  : Dict.t ServiceEntry :=
  Dict.alter
    (fun s => {| service_codename := s.(service_codename);
                 select_attributes := s.(select_attributes);
                 components := Dict.set full_comp_name entry s.(components) |})
    service_name services.

(** One round of the outer loop of [_extract_architecture_structure]. *)
Definition add_component (services : Dict.t ServiceEntry)
    (component : Raw.Component) : Dict.t ServiceEntry :=
  let component_id := default "" component.(Raw.component_id) in
  let service_space :=
    default Raw.empty_service_space component.(Raw.service_search_space) in
  let service_codename :=
    default "Unknown" service_space.(Raw.service_codename) in
  let services :=
    if negb (Dict.mem service_codename services)
    then Dict.set service_codename
           {| service_codename := service_codename;
              select_attributes :=
                default [] service_space.(Raw.service_select_attributes);
              components := [] |}
           services
    else services in
  foldl (fun services service_component =>
           let comp_name :=
             default "Unknown"
               service_component.(Raw.service_component_codename) in
           let full_comp_name := component_id +:+ "_" +:+ comp_name in
           store_component service_codename full_comp_name
             {| component_id := component_id;
                service_component_codename := comp_name;
                attributes_search_space :=
                  default [] service_component.(Raw.attributes_search_space);
                number_of_instances :=
                  default 1%Z service_component.(Raw.number_of_instances);
                service_component_sort :=
                  default [] service_component.(Raw.service_component_sort) |}
             services)
        services
        (default [] service_space.(Raw.service_components_search_spaces)).

(** [arch_data] is [None] for Python's [None]; a document that is present
    holds its [architecture_id] and so is never an empty mapping. *)
Definition _extract_architecture_structure
    (arch_data : option Raw.Architecture) : Structure :=
  match arch_data with
  | None => {| services := [] |}
  | Some arch =>
      {| services :=
           foldl add_component []
             (default [] arch.(Raw.components_search_space)) |}
  end.

(** ** Level differencers *)

Record Comparison := { same : bool; differences : string }.

(** Truth value of a set and of a list. *)
Definition set_truthy (X : gset string) : bool := bool_decide (X ≠ ∅).
Definition list_truthy {A : Type} (l : list A) : bool :=
  match l with [] => false | _ => true end.

(** ["; ".join(differences) if differences else "No differences"] *)
Definition differences_text (differences : list string) : string :=
  if list_truthy differences then PyStr.join "; " differences
  else "No differences".

(** [f"{service_name}::{comp_name}"] *)
Definition comp_key_of (service_name comp_name : string) : string :=
  service_name +:+ "::" +:+ comp_name.

(** The existence marker stored per attribute name. *)
Record AttrMark := { codename : string; exists_ : bool }.

Global Instance AttrMark_eq_dec : EqDecision AttrMark.
Proof. solve_decision. Defined.

Module Cfg.
Record AttrConfig := { values : pyval; constraint : pyval; unit : pyval }.
Record Config := {
  instances : Z;
  sort : list pyval;
  attributes : gmap string AttrConfig }.

Global Instance AttrConfig_eq_dec : EqDecision AttrConfig.
Proof. solve_decision. Defined.
Global Instance Config_eq_dec : EqDecision Config.
Proof. solve_decision. Defined.
End Cfg.

(** [_get_all_attributes]: the result is only read with [==], [.get] and
    [.keys()] put in a set, so it is kept as a map. *)
Definition _get_all_attributes (structure : Structure)
  : gmap string (gmap string AttrMark) :=
  foldl (fun attributes '(service_name, service_data) =>
    foldl (fun attributes '(comp_name, comp_data) =>
      let comp_key := comp_key_of service_name comp_name in
      let attributes := <[comp_key := ∅]> attributes in
      foldl (fun attributes attr =>
               let attr_name :=
                 default "unknown" attr.(Raw.attribute_codename) in
               alter (fun marks =>
                        <[attr_name := {| codename := attr_name;
                                          exists_ := true |}]> marks)
                     comp_key attributes)
            attributes comp_data.(attributes_search_space))
      attributes (Dict.items service_data.(components)))
    ∅ (Dict.items structure.(services)).

(** [_get_all_configurations] *)
Definition _get_all_configurations (structure : Structure)
  : gmap string Cfg.Config :=
  foldl (fun configurations '(service_name, service_data) =>
    foldl (fun configurations '(comp_name, comp_data) =>
      let comp_key := comp_key_of service_name comp_name in
      let configurations :=
        <[comp_key := {| Cfg.instances := comp_data.(number_of_instances);
                         Cfg.sort := comp_data.(service_component_sort);
                         Cfg.attributes := ∅ |}]> configurations in
      foldl (fun configurations attr =>
               let attr_name :=
                 default "unknown" attr.(Raw.attribute_codename) in
               alter (fun c =>
                        {| Cfg.instances := c.(Cfg.instances);
                           Cfg.sort := c.(Cfg.sort);
                           Cfg.attributes :=
                             <[attr_name :=
                                 {| Cfg.values :=
                                      default PNone attr.(Raw.attribute_values);
                                    Cfg.constraint :=
                                      default PNone
                                        attr.(Raw.attribute_constraint_expr);
                                    Cfg.unit :=
                                      default PNone attr.(Raw.attribute_unit) |}]>
                               c.(Cfg.attributes) |})
                     comp_key configurations)
            configurations comp_data.(attributes_search_space))
      configurations (Dict.items service_data.(components)))
    ∅ (Dict.items structure.(services)).

(** The flattening loop of [_compare_components_level]. *)
Definition flatten_components (structure : Structure)
  : gmap string ComponentEntry :=
  foldl (fun comps '(service_name, service_data) =>
    foldl (fun comps '(comp_name, comp_data) =>
             <[comp_key_of service_name comp_name := comp_data]> comps)
          comps (Dict.items service_data.(components)))
    ∅ (Dict.items structure.(services)).

(** [f"{x}"] for an instance count read with [.get("instances")] *)
Definition fmt_instances (x : option Z) : string :=
  match x with Some n => pretty n | None => "None" end.

Section Comparator.

(** The order in which a [for] loop (or [sorted], or [list]) visits the
    elements of a set. *)
Variable set_iter : gset string → list string.

(** The body shared, line for line, by [_compare_services_level] and
    [_compare_components_level] once the two key sets are built. *)
Definition compare_key_sets (baseline_keys enhanced_keys : gset string)
  : Comparison :=
  let same := bool_decide (baseline_keys = enhanced_keys) in
  let differences :=
    if negb same then
      let baseline_only := baseline_keys ∖ enhanced_keys in
      let enhanced_only := enhanced_keys ∖ baseline_keys in
      (if set_truthy baseline_only
       then ["Baseline only: "
             +:+ PyStr.join ", " (PyStr.sorted (set_iter baseline_only))]
       else [])
      ++ (if set_truthy enhanced_only
          then ["Enhanced only: "
                +:+ PyStr.join ", " (PyStr.sorted (set_iter enhanced_only))]
          else [])
    else [] in
  {| same := same; differences := differences_text differences |}.

Definition _compare_services_level
    (baseline_structure enhanced_structure : Structure) : Comparison :=
  let baseline_services := Dict.key_set baseline_structure.(services) in
  let enhanced_services := Dict.key_set enhanced_structure.(services) in
  compare_key_sets baseline_services enhanced_services.

Definition _compare_components_level
    (baseline_structure enhanced_structure : Structure) : Comparison :=
  let baseline_components := flatten_components baseline_structure in
  let enhanced_components := flatten_components enhanced_structure in
  let baseline_comp_keys : gset string := dom baseline_components in
  let enhanced_comp_keys : gset string := dom enhanced_components in
  compare_key_sets baseline_comp_keys enhanced_comp_keys.

(** The entry of one [comp_key] in the attributes difference list. *)
Definition attribute_differences_at
    (baseline_attrs enhanced_attrs : gmap string (gmap string AttrMark))
    (comp_key : string) : list string :=
  let baseline_comp_attrs := default ∅ (baseline_attrs !! comp_key) in
  let enhanced_comp_attrs := default ∅ (enhanced_attrs !! comp_key) in
  if bool_decide (baseline_comp_attrs ≠ enhanced_comp_attrs) then
    let baseline_attr_names : gset string := dom baseline_comp_attrs in
    let enhanced_attr_names : gset string := dom enhanced_comp_attrs in
    if bool_decide (baseline_attr_names ≠ enhanced_attr_names) then
      let baseline_only := baseline_attr_names ∖ enhanced_attr_names in
      let enhanced_only := enhanced_attr_names ∖ baseline_attr_names in
      if set_truthy baseline_only || set_truthy enhanced_only then
        let comp_diffs :=
          (if set_truthy baseline_only
           then ["baseline only: "
                 +:+ PyStr.join ", "
                       (PyStr.sorted (set_iter baseline_only))]
           else [])
          ++ (if set_truthy enhanced_only
              then ["enhanced only: "
                    +:+ PyStr.join ", "
                          (PyStr.sorted (set_iter enhanced_only))]
              else []) in
        [comp_key +:+ " (" +:+ PyStr.join "; " comp_diffs +:+ ")"]
      else []
    else []
  else [].

Definition _compare_attributes_level
    (baseline_structure enhanced_structure : Structure) : Comparison :=
  let baseline_attrs := _get_all_attributes baseline_structure in
  let enhanced_attrs := _get_all_attributes enhanced_structure in
  let same := bool_decide (baseline_attrs = enhanced_attrs) in
  let differences :=
    if negb same then
      let all_comp_keys := dom baseline_attrs ∪ dom enhanced_attrs in
      foldl (fun differences comp_key =>
               differences
               ++ attribute_differences_at baseline_attrs enhanced_attrs
                    comp_key)
            [] (set_iter all_comp_keys)
    else [] in
  {| same := same; differences := differences_text differences |}.

(** The entry of one attribute name in [comp_diffs]; [None] stands for
    the [{}] that [.get(attr_name, {})] falls back to. *)
Definition attribute_config_differences_at
    (baseline_attr_configs enhanced_attr_configs
       : gmap string Cfg.AttrConfig)
    (attr_name : string) : list string :=
  let baseline_attr := baseline_attr_configs !! attr_name in
  let enhanced_attr := enhanced_attr_configs !! attr_name in
  if bool_decide (baseline_attr ≠ enhanced_attr) then
    let get (field : Cfg.AttrConfig → pyval) (a : option Cfg.AttrConfig) :=
      default PNone (field <$> a) in
    let attr_diffs :=
      (if bool_decide (get Cfg.values baseline_attr
                       ≠ get Cfg.values enhanced_attr)
       then ["values"] else [])
      ++ (if bool_decide (get Cfg.constraint baseline_attr
                          ≠ get Cfg.constraint enhanced_attr)
          then ["constraint"] else [])
      ++ (if bool_decide (get Cfg.unit baseline_attr
                          ≠ get Cfg.unit enhanced_attr)
          then ["unit"] else []) in
    if list_truthy attr_diffs
    then [attr_name +:+ ": " +:+ PyStr.join ", " attr_diffs]
    else []
  else [].

(** The entry of one [comp_key] in the configurations difference list;
    [None] stands for the [{}] of [.get(comp_key, {})]. *)
Definition configuration_differences_at
    (baseline_configs enhanced_configs : gmap string Cfg.Config)
    (comp_key : string) : list string :=
  let baseline_comp_configs := baseline_configs !! comp_key in
  let enhanced_comp_configs := enhanced_configs !! comp_key in
  if bool_decide (baseline_comp_configs ≠ enhanced_comp_configs) then
    let baseline_instances := Cfg.instances <$> baseline_comp_configs in
    let enhanced_instances := Cfg.instances <$> enhanced_comp_configs in
    let baseline_attr_configs :=
      default ∅ (Cfg.attributes <$> baseline_comp_configs) in
    let enhanced_attr_configs :=
      default ∅ (Cfg.attributes <$> enhanced_comp_configs) in
    let comp_diffs :=
      (if bool_decide (baseline_instances ≠ enhanced_instances)
       then ["instances: " +:+ fmt_instances baseline_instances
             +:+ " vs " +:+ fmt_instances enhanced_instances]
       else [])
      ++ (if bool_decide (Cfg.sort <$> baseline_comp_configs
                          ≠ Cfg.sort <$> enhanced_comp_configs)
          then ["sort configuration differs"] else [])
      ++ foldl (fun comp_diffs attr_name =>
                  comp_diffs
                  ++ attribute_config_differences_at
                       baseline_attr_configs enhanced_attr_configs attr_name)
               []
               (set_iter (dom baseline_attr_configs
                          ∪ dom enhanced_attr_configs)) in
    if list_truthy comp_diffs
    then [comp_key +:+ " (" +:+ PyStr.join "; " comp_diffs +:+ ")"]
    else []
  else [].

Definition _compare_configurations_level
    (baseline_structure enhanced_structure : Structure) : Comparison :=
  let baseline_configs := _get_all_configurations baseline_structure in
  let enhanced_configs := _get_all_configurations enhanced_structure in
  let same := bool_decide (baseline_configs = enhanced_configs) in
  let differences :=
    if negb same then
      let all_comp_keys := dom baseline_configs ∪ dom enhanced_configs in
      foldl (fun differences comp_key =>
               differences
               ++ configuration_differences_at baseline_configs
                    enhanced_configs comp_key)
            [] (set_iter all_comp_keys)
    else [] in
  {| same := same; differences := differences_text differences |}.

End Comparator.

(** ** Comparator state and reasoning lookups *)

Record Comparator := {
  baseline_data : Raw.ArchitectureSet;
  enhanced_data : Raw.ArchitectureSet;
  baseline_reasoning_lookup : gmap string Raw.Reasoning;
  enhanced_reasoning_lookup : gmap string Raw.Reasoning }.

Definition _create_reasoning_lookup (reasoning_data : Raw.ReasoningSet)
  : gmap string Raw.Reasoning :=
  foldl (fun lookup reasoning_obj =>
           match reasoning_obj.(Raw.reasoning_service_codename) with
           | Some service_name =>
               if PyStr.truthy service_name
               then <[service_name := reasoning_obj]> lookup
               else lookup
           | None => lookup
           end)
        ∅ (default [] reasoning_data.(Raw.reasoning_objects)).

(** [__init__], on the four documents already loaded ([_load_json] gives
    the empty mapping for a file it cannot read). *)
Definition init (baseline enhanced : Raw.ArchitectureSet)
    (baseline_reasoning enhanced_reasoning : Raw.ReasoningSet) : Comparator :=
  {| baseline_data := baseline;
     enhanced_data := enhanced;
     baseline_reasoning_lookup := _create_reasoning_lookup baseline_reasoning;
     enhanced_reasoning_lookup := _create_reasoning_lookup enhanced_reasoning |}.

(** Truth value of a reasoning record read as a mapping: it is false for
    the empty mapping only. *)
Definition reasoning_truthy (r : Raw.Reasoning) : bool :=
  bool_decide (r ≠ Raw.empty_reasoning).

Record TabularComparisonRow := {
  architecture_id : string;
  services_same : Z;
  components_same : Z;
  attributes_same : Z;
  configurations_same : Z;
  services_differences : string;
  components_differences : string;
  attributes_differences : string;
  configurations_differences : string;
  reasoning_description : string }.

Global Instance TabularComparisonRow_eq_dec : EqDecision TabularComparisonRow.
Proof. solve_decision. Defined.

(** ** Call log of [_create_comparison_row] *)

(** The methods [_create_comparison_row] calls.  [_extract_key_insight]
    is called by [_get_reasoning_description] only. *)
Inductive Callee : Type :=
  | CallExtractStructure
  | CallServicesLevel
  | CallComponentsLevel
  | CallAttributesLevel
  | CallConfigurationsLevel
  | CallReasoningDescription.

Definition Logged (A : Type) : Type := (A * list Callee)%type.

Definition ret {A : Type} (a : A) : Logged A := (a, []).

Definition bind {A B : Type} (m : Logged A) (k : A → Logged B) : Logged B :=
  let '(b, log) := k m.1 in (b, m.2 ++ log).

(** A call of method [c] that returns [a]. *)
Definition call {A : Type} (c : Callee) (a : A) : Logged A := (a, [c]).

Notation "'let*' x ':=' m 'in' k" := (bind m (fun x => k))
  (at level 10, x name, m at level 100, k at level 200).

Section Orchestrator.

Variable set_iter : gset string → list string.

(** [str(x)] for a value that is not a string. *)
Variable py_str : pyval → string.

(** One labelled insight: the extractor's result behind [label], or
    nothing when [text] or the result is empty. *)
Definition labelled_insight (label text context : string) : list string :=
  if PyStr.truthy text then
    let key_insight := _extract_key_insight text context in
    if PyStr.truthy key_insight then [label +:+ key_insight] else []
  else [].

(** One round of the loop over [all_services]. *)
Definition describe_service (self : Comparator)
    (baseline_services enhanced_services : gset string)
    (descriptions : list string) (service_name : string) : list string :=
  let baseline_reasoning :=
    default Raw.empty_reasoning
      (self.(baseline_reasoning_lookup) !! service_name) in
  let enhanced_reasoning :=
    default Raw.empty_reasoning
      (self.(enhanced_reasoning_lookup) !! service_name) in
  let baseline_attr_rationale :=
    default "" baseline_reasoning.(Raw.attribute_selection_rationale) in
  let enhanced_attr_rationale :=
    default "" enhanced_reasoning.(Raw.attribute_selection_rationale) in
  let baseline_critical_attrs :=
    default "" baseline_reasoning.(Raw.critical_attributes_reasoning) in
  let enhanced_critical_attrs :=
    default "" enhanced_reasoning.(Raw.critical_attributes_reasoning) in
  let baseline_alternatives :=
    default [] baseline_reasoning.(Raw.alternatives_considered) in
  let enhanced_alternatives :=
    default [] enhanced_reasoning.(Raw.alternatives_considered) in
  if bool_decide (service_name ∈ baseline_services)
     && bool_decide (service_name ∈ enhanced_services)
  then
    let insights :=
      (if bool_decide (baseline_attr_rationale ≠ enhanced_attr_rationale)
       then labelled_insight "Attribute selection: "
              enhanced_attr_rationale "Enhanced reasoning"
       else [])
      ++ (if bool_decide (baseline_critical_attrs ≠ enhanced_critical_attrs)
          then labelled_insight "Critical attributes: "
                 enhanced_critical_attrs "Critical attributes"
          else [])
      ++ (if bool_decide (baseline_alternatives ≠ enhanced_alternatives)
          then
            match enhanced_alternatives with
            | first :: _ =>
                let alt_reasoning :=
                  match first with
                  | PStr s => s
                  | other => py_str other
                  end in
                let key_insight :=
                  _extract_key_insight alt_reasoning
                    "Alternative considered" in
                if PyStr.truthy key_insight
                then ["Design choice: " +:+ key_insight] else []
            | [] => []
            end
          else []) in
    if list_truthy insights
    then descriptions
         ++ [service_name +:+ ": " +:+ PyStr.join "; " insights]
    else descriptions
  else if bool_decide (service_name ∈ enhanced_services)
          && negb (bool_decide (service_name ∈ baseline_services))
  then
    let enhanced_understanding :=
      default "" enhanced_reasoning.(Raw.service_understanding) in
    descriptions
    ++ labelled_insight (service_name +:+ " (Enhanced only): ")
         enhanced_understanding "Service purpose"
    ++ labelled_insight (service_name +:+ " selection reasoning: ")
         enhanced_attr_rationale "Selection rationale"
  else if bool_decide (service_name ∈ baseline_services)
          && negb (bool_decide (service_name ∈ enhanced_services))
  then
    let baseline_understanding :=
      default "" baseline_reasoning.(Raw.service_understanding) in
    descriptions
    ++ labelled_insight (service_name +:+ " (Baseline only): ")
         baseline_understanding "Service purpose"
  else descriptions.

(** One round of the fallback loop over the common services. *)
Definition describe_common_service (self : Comparator)
    (descriptions : list string) (service_name : string) : list string :=
  let enhanced_reasoning :=
    default Raw.empty_reasoning
      (self.(enhanced_reasoning_lookup) !! service_name) in
  let reasoning :=
    if reasoning_truthy enhanced_reasoning then enhanced_reasoning
    else default Raw.empty_reasoning
           (self.(baseline_reasoning_lookup) !! service_name) in
  let attr_rationale :=
    default "" reasoning.(Raw.attribute_selection_rationale) in
  let critical_attrs :=
    default "" reasoning.(Raw.critical_attributes_reasoning) in
  if PyStr.truthy attr_rationale then
    descriptions
    ++ labelled_insight (service_name +:+ ": ") attr_rationale
         "Configuration rationale"
  else if PyStr.truthy critical_attrs then
    descriptions
    ++ labelled_insight (service_name +:+ ": ") critical_attrs
         "Critical reasoning"
  else descriptions.

Definition _get_reasoning_description (self : Comparator)
    (baseline_structure enhanced_structure : Structure) : string :=
  let baseline_services := Dict.key_set baseline_structure.(services) in
  let enhanced_services := Dict.key_set enhanced_structure.(services) in
  let all_services := baseline_services ∪ enhanced_services in
  let descriptions :=
    foldl (describe_service self baseline_services enhanced_services)
          [] (set_iter all_services) in
  let descriptions :=
    if negb (list_truthy descriptions) then
      let common_services := baseline_services ∩ enhanced_services in
      foldl (describe_common_service self) descriptions
            (take 2 (set_iter common_services))
    else descriptions in
  if list_truthy descriptions then PyStr.join "; " descriptions
  else "No specific reasoning insights available".

Definition only_in_row (arch_id side : string) : TabularComparisonRow :=
  {| architecture_id := arch_id;
     services_same := 0;
     components_same := 0;
     attributes_same := 0;
     configurations_same := 0;
     services_differences := "Architecture only in " +:+ side;
     components_differences := "Architecture only in " +:+ side;
     attributes_differences := "Architecture only in " +:+ side;
     configurations_differences := "Architecture only in " +:+ side;
     reasoning_description :=
       "Architecture exists only in " +:+ side +:+ " dataset" |}.

(** [_create_comparison_row] with the log of the methods it calls.  An
    architecture that is present is a non-empty mapping, so
    [not baseline_arch] holds exactly for [None]. *)
Definition _create_comparison_row_logged (self : Comparator)
    (arch_id : string) (baseline_arch enhanced_arch : option Raw.Architecture)
  : Logged TabularComparisonRow :=
  match baseline_arch, enhanced_arch with
  | None, _ => ret (only_in_row arch_id "enhanced")
  | Some _, None => ret (only_in_row arch_id "baseline")
  | Some _, Some _ =>
      let* baseline_structure :=
        call CallExtractStructure
          (_extract_architecture_structure baseline_arch) in
      let* enhanced_structure :=
        call CallExtractStructure
          (_extract_architecture_structure enhanced_arch) in
      let* services_comparison :=
        call CallServicesLevel
          (_compare_services_level set_iter
             baseline_structure enhanced_structure) in
      let* components_comparison :=
        call CallComponentsLevel
          (_compare_components_level set_iter
             baseline_structure enhanced_structure) in
      let* attributes_comparison :=
        call CallAttributesLevel
          (_compare_attributes_level set_iter
             baseline_structure enhanced_structure) in
      let* configurations_comparison :=
        call CallConfigurationsLevel
          (_compare_configurations_level set_iter
             baseline_structure enhanced_structure) in
      let* reasoning_desc :=
        call CallReasoningDescription
          (_get_reasoning_description self
             baseline_structure enhanced_structure) in
      ret {| architecture_id := arch_id;
             services_same :=
               if services_comparison.(same) then 1 else 0;
             components_same :=
               if components_comparison.(same) then 1 else 0;
             attributes_same :=
               if attributes_comparison.(same) then 1 else 0;
             configurations_same :=
               if configurations_comparison.(same) then 1 else 0;
             services_differences := services_comparison.(differences);
             components_differences := components_comparison.(differences);
             attributes_differences := attributes_comparison.(differences);
             configurations_differences :=
               configurations_comparison.(differences);
             reasoning_description := reasoning_desc |}
  end.

Definition _create_comparison_row (self : Comparator)
    (arch_id : string) (baseline_arch enhanced_arch : option Raw.Architecture)
  : TabularComparisonRow :=
  (_create_comparison_row_logged self arch_id baseline_arch enhanced_arch).1.

(** [{arch["architecture_id"]: arch for arch in data.get("architectures", [])}] *)
Definition index_architectures (data : Raw.ArchitectureSet)
  : gmap string Raw.Architecture :=
  foldl (fun archs arch => <[arch.(Raw.architecture_id) := arch]> archs)
        ∅ (default [] data.(Raw.architectures)).

Definition compare_all_architectures_tabular (self : Comparator)
  : list TabularComparisonRow :=
  let baseline_archs := index_architectures self.(baseline_data) in
  let enhanced_archs := index_architectures self.(enhanced_data) in
  let all_arch_ids :=
    PyStr.sorted (set_iter (dom baseline_archs ∪ dom enhanced_archs)) in
  foldl (fun comparison_rows arch_id =>
           let baseline_arch := baseline_archs !! arch_id in
           let enhanced_arch := enhanced_archs !! arch_id in
           let row :=
             _create_comparison_row self arch_id baseline_arch enhanced_arch in
           comparison_rows ++ [row])
        [] all_arch_ids.

End Orchestrator.

(** ** The rationale extractor, as the specification words it *)

(** A sentence closed by a period. *)
Definition spec_close_sentence (s : string) : string :=
  if PyStr.endswith s "." then s else s +:+ ".".

(** Section 4.6: the text is stripped and split on [". "], every sentence
    is stripped; the first sentence with a decision phrase is returned
    closed by a period, else the first sentence longer than 30 characters,
    else the text; whatever is returned is cut to 150 characters with
    ["..."] added when it was longer.  The empty text gives the empty
    text. *)
Definition spec_extract_key_insight (text : string) : string :=
  if decide (text = "") then ""
  else
    let text := PyStr.strip text in
    let sentences := PyStr.strip <$> PyStr.split ". " text in
    match List.find has_key_phrase sentences with
    | Some s => clip150 (spec_close_sentence s)
    | None =>
        match List.find (fun s => (30 <? String.length s)%nat) sentences with
        | Some s => clip150 s
        | None => clip150 text
        end
    end.

(** What one round of the first loop appends. *)
Definition key_sentence_of (sentence : string) : list string :=
  let sentence := PyStr.strip sentence in
  if has_key_phrase sentence then [spec_close_sentence sentence] else [].

(** A single sentence of 162 characters that holds "because" and ends in
    a period. *)
Definition long_reason : string :=
  "We selected the replicated store because it keeps every acknowledged "
  +:+ "write on three nodes, survives the loss of a zone, and restores "
  +:+ "itself without operator help.".


(** ** The key-set difference text, as the specification words it *)

(** The names of a set in lexicographic order. *)
Definition spec_sorted_names (X : gset string) : list string :=
  PyStr.sorted (elements X).

(** One side of the difference text: nothing for an empty side, else the
    label followed by the comma-joined sorted names. *)
Definition spec_only (label : string) (X : gset string) : list string :=
  if decide (X = ∅) then []
  else [label +:+ PyStr.join ", " (spec_sorted_names X)].

(** Section 4.2: ["No differences"] for equal key sets, else the baseline
    part and the enhanced part, each only when non-empty, joined by
    ["; "]. *)
Definition spec_key_set_text (B E : gset string) : string :=
  if decide (B = E) then "No differences"
  else PyStr.join "; "
         (spec_only "Baseline only: " (B ∖ E)
          ++ spec_only "Enhanced only: " (E ∖ B)).

(** Two small structures for the services level. *)
Definition service_only (name : string) : string * ServiceEntry :=
  (name, {| service_codename := name; select_attributes := [];
            components := [] |}).

Definition services_api_cache : Structure :=
  {| services := [service_only "cache"; service_only "api";
                  service_only "queue"] |}.

Definition services_api_db : Structure :=
  {| services := [service_only "db"; service_only "api"] |}.

(** ** Per-component views used to state the attribute and configuration
    levels *)

(** [attr.get("attribute_codename", "unknown")] *)
Definition attribute_name (attr : Raw.Attribute) : string :=
  default "unknown" attr.(Raw.attribute_codename).

Definition mark_of (attr_name : string) : AttrMark :=
  {| codename := attr_name; exists_ := true |}.

(** The existence map one component ends up with. *)
Definition attribute_marks (attrs : list Raw.Attribute)
  : gmap string AttrMark :=
  foldl (fun marks attr =>
           <[attribute_name attr := mark_of (attribute_name attr)]> marks)
        ∅ attrs.

(** The set of attribute codenames of an attribute list. *)
Definition attribute_names (attrs : list Raw.Attribute) : gset string :=
  list_to_set (attribute_name <$> attrs).

Definition attr_config_of (attr : Raw.Attribute) : Cfg.AttrConfig :=
  {| Cfg.values := default PNone attr.(Raw.attribute_values);
     Cfg.constraint := default PNone attr.(Raw.attribute_constraint_expr);
     Cfg.unit := default PNone attr.(Raw.attribute_unit) |}.

(** The attribute configuration map one component ends up with. *)
Definition attribute_configs (attrs : list Raw.Attribute)
  : gmap string Cfg.AttrConfig :=
  foldl (fun configs attr =>
           <[attribute_name attr := attr_config_of attr]> configs)
        ∅ attrs.

Definition config_of (comp_data : ComponentEntry) : Cfg.Config :=
  {| Cfg.instances := comp_data.(number_of_instances);
     Cfg.sort := comp_data.(service_component_sort);
     Cfg.attributes :=
       attribute_configs comp_data.(attributes_search_space) |}.

(** The attribute codenames carried by a component key: [None] when the
    structure has no component under that key. *)
Definition spec_attribute_names (structure : Structure) (comp_key : string)
  : option (gset string) :=
  (fun comp_data => attribute_names comp_data.(attributes_search_space))
    <$> flatten_components structure !! comp_key.

(** ** Small raw documents used as concrete inputs *)

Definition raw_attribute (name : string) (values : pyval) : Raw.Attribute :=
  {| Raw.attribute_codename := Some name;
     Raw.attribute_values := Some values;
     Raw.attribute_constraint_expr := None;
     Raw.attribute_unit := None |}.

Definition raw_service_component (name : string)
    (attrs : list Raw.Attribute) : Raw.ServiceComponent :=
  {| Raw.service_component_codename := Some name;
     Raw.attributes_search_space := Some attrs;
     Raw.number_of_instances := None;
     Raw.service_component_sort := None |}.

Definition raw_component (id service : string) (select : list pyval)
    (parts : list Raw.ServiceComponent) : Raw.Component :=
  {| Raw.component_id := Some id;
     Raw.service_search_space :=
       Some {| Raw.service_codename := Some service;
               Raw.service_select_attributes := Some select;
               Raw.service_components_search_spaces := Some parts |} |}.

Definition raw_architecture (id : string) (comps : list Raw.Component)
  : Raw.Architecture :=
  {| Raw.architecture_id := id; Raw.components_search_space := Some comps |}.

(** Service [db] with the single component [c1_z], which has no
    attributes; and the same service without any component. *)
Definition arch_bare_component : Raw.Architecture :=
  raw_architecture "a1"
    [raw_component "c1" "db" [] [raw_service_component "z" []]].

Definition arch_no_component : Raw.Architecture :=
  raw_architecture "a1" [raw_component "c1" "db" [] []].

(** Service [db] with components [c1_x] (attribute [size]) and [c1_z]
    (no attribute); and the same without [c1_z]. *)
Definition arch_with_bare : Raw.Architecture :=
  raw_architecture "a1"
    [raw_component "c1" "db" []
       [raw_service_component "x" [raw_attribute "size" (PInt 1)];
        raw_service_component "z" []]].

Definition arch_without_bare : Raw.Architecture :=
  raw_architecture "a1"
    [raw_component "c1" "db" []
       [raw_service_component "x" [raw_attribute "size" (PInt 1)]]].

(** The values of attribute [attr_name] in an attribute list: those of
    the last attribute of that codename, [None] when there is none. *)
Definition spec_attribute_values (attrs : list Raw.Attribute)
    (attr_name : string) : option pyval :=
  (fun attr => default PNone attr.(Raw.attribute_values))
    <$> last (filter (fun attr => attribute_name attr = attr_name) attrs).

(** Two architectures with the same components and attribute codenames;
    attribute [size] of [db::c1_x] has value 1 in one and 2 in the
    other. *)
Definition arch_size_one : Raw.Architecture :=
  raw_architecture "a1"
    [raw_component "c1" "db" []
       [raw_service_component "x"
          [raw_attribute "size" (PInt 1); raw_attribute "tier" (PStr "ssd")]]].

Definition arch_size_two : Raw.Architecture :=
  raw_architecture "a1"
    [raw_component "c1" "db" []
       [raw_service_component "x"
          [raw_attribute "size" (PInt 2); raw_attribute "tier" (PStr "ssd")]]].

(** A comparator without reasoning records. *)
Definition comparator_of (baseline enhanced : list Raw.Architecture)
  : Comparator :=
  init {| Raw.architectures := Some baseline |}
       {| Raw.architectures := Some enhanced |}
       {| Raw.reasoning_objects := None |}
       {| Raw.reasoning_objects := None |}.

(** ** Rows, as the specification words them *)

(** The row of an architecture found on one side only. *)
Definition spec_only_baseline_row (arch_id : string) : TabularComparisonRow :=
  {| architecture_id := arch_id;
     services_same := 0;
     components_same := 0;
     attributes_same := 0;
     configurations_same := 0;
     services_differences := "Architecture only in baseline";
     components_differences := "Architecture only in baseline";
     attributes_differences := "Architecture only in baseline";
     configurations_differences := "Architecture only in baseline";
     reasoning_description := "Architecture exists only in baseline dataset" |}.

Definition spec_only_enhanced_row (arch_id : string) : TabularComparisonRow :=
  {| architecture_id := arch_id;
     services_same := 0;
     components_same := 0;
     attributes_same := 0;
     configurations_same := 0;
     services_differences := "Architecture only in enhanced";
     components_differences := "Architecture only in enhanced";
     attributes_differences := "Architecture only in enhanced";
     configurations_differences := "Architecture only in enhanced";
     reasoning_description := "Architecture exists only in enhanced dataset" |}.

(** A flag is 0 or 1. *)
Definition is_flag (n : Z) : Prop := n = 0%Z ∨ n = 1%Z.

(** Section 6: four flags that are 0 or 1, five texts that are not
    empty. *)
Definition spec_row_well_formed (row : TabularComparisonRow) : Prop :=
  is_flag row.(services_same)
  ∧ is_flag row.(components_same)
  ∧ is_flag row.(attributes_same)
  ∧ is_flag row.(configurations_same)
  ∧ row.(services_differences) ≠ ""
  ∧ row.(components_differences) ≠ ""
  ∧ row.(attributes_differences) ≠ ""
  ∧ row.(configurations_differences) ≠ ""
  ∧ row.(reasoning_description) ≠ "".

(** The identifiers of a document set, in document order. *)
Definition architecture_ids (data : Raw.ArchitectureSet) : list string :=
  Raw.architecture_id <$> default [] data.(Raw.architectures).

(** The documents of the missing-architecture example. *)
Definition comparator_archA_archB : Comparator :=
  comparator_of [raw_architecture "archA" []] [raw_architecture "archB" []].

(** ** Two orders in which a set may be visited *)

Definition ascending (X : gset string) : list string :=
  PyStr.sorted (elements X).

Definition descending (X : gset string) : list string :=
  reverse (PyStr.sorted (elements X)).

(** Two architectures whose components [db::c1_x] and [db::c1_y] both
    changed an attribute codename. *)
Definition arch_two_keys_before : Raw.Architecture :=
  raw_architecture "a1"
    [raw_component "c1" "db" []
       [raw_service_component "x" [raw_attribute "size" (PInt 1)];
        raw_service_component "y" [raw_attribute "tier" (PStr "ssd")]]].

Definition arch_two_keys_after : Raw.Architecture :=
  raw_architecture "a1"
    [raw_component "c1" "db" []
       [raw_service_component "x" [raw_attribute "capacity" (PInt 1)];
        raw_service_component "y" [raw_attribute "class" (PStr "ssd")]]].

Definition comparator_two_keys : Comparator :=
  comparator_of [arch_two_keys_before] [arch_two_keys_after].

(** ** The normalized architecture up to key order *)

(** Python's [==] on dictionaries ignores the order of keys; a service
    entry and a normalized architecture are compared through these
    views. *)
Record ServiceView := {
  view_codename : string;
  view_select : list pyval;
  view_components : gmap string ComponentEntry }.

Definition view_of (s : ServiceEntry) : ServiceView :=
  {| view_codename := s.(service_codename);
     view_select := s.(select_attributes);
     view_components := Dict.to_map s.(components) |}.

Definition services_view (d : Dict.t ServiceEntry) : gmap string ServiceView :=
  view_of <$> Dict.to_map d.

Definition structure_view (structure : Structure) : gmap string ServiceView :=
  services_view structure.(services).

(** ** The normalizer, as the specification words it *)

Definition raw_service_space (component : Raw.Component) : Raw.ServiceSpace :=
  default Raw.empty_service_space component.(Raw.service_search_space).

(** The service codename of a raw component (["Unknown"] if missing). *)
Definition raw_service_name (component : Raw.Component) : string :=
  default "Unknown" (raw_service_space component).(Raw.service_codename).

Definition raw_select (component : Raw.Component) : list pyval :=
  default [] (raw_service_space component).(Raw.service_select_attributes).

(** The composite key and the component entry of one service component
    of a raw component. *)
Definition raw_entry (component : Raw.Component)
    (service_component : Raw.ServiceComponent) : string * ComponentEntry :=
  let component_id := default "" component.(Raw.component_id) in
  let comp_name :=
    default "Unknown" service_component.(Raw.service_component_codename) in
  (component_id +:+ "_" +:+ comp_name,
   {| component_id := component_id;
      service_component_codename := comp_name;
      attributes_search_space :=
        default [] service_component.(Raw.attributes_search_space);
      number_of_instances :=
        default 1%Z service_component.(Raw.number_of_instances);
      service_component_sort :=
        default [] service_component.(Raw.service_component_sort) |}).

(** The entries a raw component introduces, in document order. *)
Definition raw_entries (component : Raw.Component)
  : list (string * ComponentEntry) :=
  raw_entry component
    <$> default []
          (raw_service_space component).(Raw.service_components_search_spaces).

(** The raw components of service [s], in document order. *)
Definition components_of_service (l : list Raw.Component) (s : string)
  : list Raw.Component :=
  filter (fun component => raw_service_name component = s) l.

(** The select attributes of service [s]: those of the first raw
    component of that service. *)
Definition spec_first_select (l : list Raw.Component) (s : string)
  : option (list pyval) :=
  raw_select <$> head (components_of_service l s).

(** The entry stored under composite key [k] of service [s]: the last
    one in document order (last write wins). *)
Definition spec_last_entry (l : list Raw.Component) (s k : string)
  : option ComponentEntry :=
  snd <$> last (filter (fun entry => entry.1 = k)
                       (components_of_service l s ≫= raw_entries)).

(** Components of one service carry the same select attributes. *)
Definition select_agrees (l : list Raw.Component) : Prop :=
  ∀ c1 c2, c1 ∈ l → c2 ∈ l →
    raw_service_name c1 = raw_service_name c2 → raw_select c1 = raw_select c2.

(** No composite key of a service is bound to two different entries. *)
Definition keys_agree (l : list Raw.Component) : Prop :=
  ∀ c1 c2 k e1 e2, c1 ∈ l → c2 ∈ l →
    raw_service_name c1 = raw_service_name c2 →
    (k, e1) ∈ raw_entries c1 → (k, e2) ∈ raw_entries c2 → e1 = e2.

(** Two raw components of service [db] that differ in their select
    attributes and have no service component. *)
Definition component_select_cpu : Raw.Component :=
  raw_component "c1" "db" [PStr "cpu"] [].

Definition component_select_ram : Raw.Component :=
  raw_component "c2" "db" [PStr "ram"] [].

(** Three raw components of two services with distinct composite keys. *)
Definition components_three : list Raw.Component :=
  [raw_component "c1" "db" [PStr "cpu"]
     [raw_service_component "x" [raw_attribute "size" (PInt 1)]];
   raw_component "c2" "cache" []
     [raw_service_component "y" []];
   raw_component "c3" "db" [PStr "cpu"]
     [raw_service_component "x" []; raw_service_component "z" []]].

Definition components_three_reordered : list Raw.Component :=
  [raw_component "c3" "db" [PStr "cpu"]
     [raw_service_component "x" []; raw_service_component "z" []];
   raw_component "c1" "db" [PStr "cpu"]
     [raw_service_component "x" [raw_attribute "size" (PInt 1)]];
   raw_component "c2" "cache" []
     [raw_service_component "y" []]].

(** A service view with its component map replaced. *)
Definition with_components (v : ServiceView)
    (comps : gmap string ComponentEntry) : ServiceView :=
  {| view_codename := v.(view_codename);
     view_select := v.(view_select);
     view_components := comps |}.

(** The view a service starts from when a raw component of it is met. *)
Definition fresh_view (component : Raw.Component) : ServiceView :=
  {| view_codename := raw_service_name component;
     view_select := raw_select component;
     view_components := ∅ |}.

(** The raw components of a normalizer input. *)
Definition raw_components (arch : Raw.Architecture) : list Raw.Component :=
  default [] arch.(Raw.components_search_space).

(** An architecture with the given raw components. *)
Definition architecture_of (l : list Raw.Component) : Raw.Architecture :=
  {| Raw.architecture_id := "a1"; Raw.components_search_space := Some l |}.

(** ** Further views of the inputs *)

(** The reasoning objects of a reasoning document, in document order. *)
Definition reasoning_list (data : Raw.ReasoningSet) : list Raw.Reasoning :=
  default [] data.(Raw.reasoning_objects).

(** The architectures of a document set, in document order. *)
Definition architecture_list (data : Raw.ArchitectureSet)
  : list Raw.Architecture :=
  default [] data.(Raw.architectures).

(** The last architecture of a document set with identifier [arch_id]. *)
Definition spec_last_architecture (data : Raw.ArchitectureSet)
    (arch_id : string) : option Raw.Architecture :=
  last (filter (fun arch => arch.(Raw.architecture_id) = arch_id)
               (architecture_list data)).

(** A reasoning record for a service. *)
Definition raw_reasoning (service rationale : string) : Raw.Reasoning :=
  {| Raw.reasoning_service_codename := Some service;
     Raw.attribute_selection_rationale := Some rationale;
     Raw.critical_attributes_reasoning := None;
     Raw.alternatives_considered := None;
     Raw.service_understanding := None |}.

(** The row of [a1] when both sides are [arch_size_two]. *)
Definition row_size_two : TabularComparisonRow :=
  _create_comparison_row elements (fun _ => "")
    (comparator_of [arch_size_one; arch_size_two] [arch_size_two]) "a1"
    (Some arch_size_two) (Some arch_size_two).

(** The ["service::component"] keys of a normalized architecture, in
    the order the flattening loop meets them. *)
Definition spec_component_keys (structure : Structure) : list string :=
  structure.(services) ≫= fun '(service_name, service_data) =>
    (fun entry => comp_key_of service_name entry.1)
      <$> service_data.(components).

Definition spec_component_key_set (structure : Structure) : gset string :=
  list_to_set (spec_component_keys structure).

(** Two structures for the components level: service [db] with
    components [c1_x], [c1_y] and with components [c1_y], [c1_z]. *)
Definition structure_xy : Structure :=
  _extract_architecture_structure
    (Some (raw_architecture "a1"
             [raw_component "c1" "db" []
                [raw_service_component "x" [];
                 raw_service_component "y" []]])).

Definition structure_yz : Structure :=
  _extract_architecture_structure
    (Some (raw_architecture "a1"
             [raw_component "c1" "db" []
                [raw_service_component "y" [];
                 raw_service_component "z" []]])).

(** A row that reports no difference at any level. *)
Definition spec_identical_row (row : TabularComparisonRow) : Prop :=
  row.(services_same) = 1%Z
  ∧ row.(components_same) = 1%Z
  ∧ row.(attributes_same) = 1%Z
  ∧ row.(configurations_same) = 1%Z
  ∧ row.(services_differences) = "No differences"
  ∧ row.(components_differences) = "No differences"
  ∧ row.(attributes_differences) = "No differences"
  ∧ row.(configurations_differences) = "No differences".

(** The values, constraint and unit of attribute [attr_name] in an
    attribute list: those of the last attribute of that codename, each
    read as [None] when missing. *)
Definition spec_attribute_config (attrs : list Raw.Attribute)
    (attr_name : string) : option Cfg.AttrConfig :=
  attr_config_of
    <$> last (filter (fun attr => attribute_name attr = attr_name) attrs).

(** Two components with the same configuration: same instance count,
    same sort specification and, for every attribute codename, the same
    values, constraint and unit. *)
Definition spec_same_configuration (cb ce : ComponentEntry) : Prop :=
  cb.(number_of_instances) = ce.(number_of_instances)
  ∧ cb.(service_component_sort) = ce.(service_component_sort)
  ∧ ∀ attr_name : string,
      spec_attribute_config cb.(attributes_search_space) attr_name
      = spec_attribute_config ce.(attributes_search_space) attr_name.

(** [s[-1]], when [s] is not empty. *)
Fixpoint last_char (s : string) : option ascii :=
  match s with
  | EmptyString => None
  | String c s' =>
      match last_char s' with Some d => Some d | None => Some c end
  end.

(** The attribute codenames of a component key, an absent key having
    none. *)
Definition spec_attribute_names_or_empty (structure : Structure)
    (comp_key : string) : gset string :=
  default ∅ (spec_attribute_names structure comp_key).

(** The service codenames of a raw document, as a set. *)
Definition raw_service_names (arch : Raw.Architecture) : gset string :=
  list_to_set (raw_service_name <$> raw_components arch).

(** A comparator with one reasoning record, for service [cache]. *)
Definition comparator_cache_reasoning : Comparator :=
  init {| Raw.architectures := Some [arch_size_one] |}
       {| Raw.architectures := Some [arch_size_two] |}
       {| Raw.reasoning_objects := None |}
       {| Raw.reasoning_objects :=
            Some [raw_reasoning "cache" "Chosen to keep reads fast."] |}.

(** The ["service::component"] keys a raw component introduces. *)
Definition raw_component_keys (component : Raw.Component) : list string :=
  (fun entry => comp_key_of (raw_service_name component) entry.1)
    <$> raw_entries component.

(** The ["service::component"] keys of a raw document, as a set. *)
Definition raw_component_key_set (arch : Raw.Architecture) : gset string :=
  list_to_set (raw_components arch ≫= raw_component_keys).

(** A raw document with every service component rewritten by [f]. *)
Definition retouch_component
    (f : Raw.ServiceComponent → Raw.ServiceComponent)
    (component : Raw.Component) : Raw.Component :=
  {| Raw.component_id := component.(Raw.component_id);
     Raw.service_search_space :=
       (fun space =>
          {| Raw.service_codename := space.(Raw.service_codename);
             Raw.service_select_attributes :=
               space.(Raw.service_select_attributes);
             Raw.service_components_search_spaces :=
               fmap (M := option) (fmap (M := list) f)
                 space.(Raw.service_components_search_spaces) |})
         <$> component.(Raw.service_search_space) |}.

Definition retouch_architecture
    (f : Raw.ServiceComponent → Raw.ServiceComponent)
    (arch : Raw.Architecture) : Raw.Architecture :=
  {| Raw.architecture_id := arch.(Raw.architecture_id);
     Raw.components_search_space :=
       fmap (M := option) (fmap (M := list) (retouch_component f))
         arch.(Raw.components_search_space) |}.

(** A rewriting that replaces the attributes, the instance count and the
    sort specification of a service component and keeps its codename. *)
Definition reset_service_component (service_component : Raw.ServiceComponent)
  : Raw.ServiceComponent :=
  {| Raw.service_component_codename :=
       service_component.(Raw.service_component_codename);
     Raw.attributes_search_space := Some [raw_attribute "other" (PInt 7)];
     Raw.number_of_instances := Some 3%Z;
     Raw.service_component_sort := Some [PStr "desc"] |}.

(** The entry of [db::c1_x] in [arch_size_one], and the view of its
    service. *)
Definition entry_size_one : ComponentEntry :=
  {| component_id := "c1";
     service_component_codename := "x";
     attributes_search_space :=
       [raw_attribute "size" (PInt 1); raw_attribute "tier" (PStr "ssd")];
     number_of_instances := 1;
     service_component_sort := [] |}.

Definition view_size_one : ServiceView :=
  {| view_codename := "db";
     view_select := [];
     view_components := {[ "c1_x" := entry_size_one ]} |}.

(** [p] occurs in [s] as a contiguous part. *)
Definition is_infix (p s : string) : Prop :=
  ∃ a b : string, s = a +:+ p +:+ b.

(** Two architectures whose component [db::c1_x] lists the codename
    [size] twice: the first attribute differs between them, the second
    is the same. *)
Definition arch_shadowed_one : Raw.Architecture :=
  raw_architecture "a1"
    [raw_component "c1" "db" []
       [raw_service_component "x"
          [raw_attribute "size" (PInt 1); raw_attribute "size" (PInt 3)]]].

Definition arch_shadowed_two : Raw.Architecture :=
  raw_architecture "a1"
    [raw_component "c1" "db" []
       [raw_service_component "x"
          [raw_attribute "size" (PInt 2); raw_attribute "size" (PInt 3)]]].

(** [arch_without_bare] with another value for [size]. *)
Definition arch_resized : Raw.Architecture :=
  raw_architecture "a1"
    [raw_component "c1" "db" []
       [raw_service_component "x" [raw_attribute "size" (PInt 2)]]].
(** * Properties *)

Set Warnings "-clear-no-such-hyp".

(** ** Python string primitives on examples *)

Example split_two : PyStr.split ". " "a b. c. d." = ["a b"; "c"; "d."].
Proof. reflexivity. Qed.

Example split_empty : PyStr.split ". " "" = [""].
Proof. reflexivity. Qed.

Example strip_both : PyStr.strip "  a b  " = "a b".
Proof. reflexivity. Qed.

Example lower_mixed : PyStr.lower "To Ensure" = "to ensure".
Proof. reflexivity. Qed.

Example sorted_names : PyStr.sorted ["db"; "cache"; "api"] = ["api"; "cache"; "db"].
Proof. reflexivity. Qed.

Example insight_postgres :
  _extract_key_insight
    "We selected Postgres because it ensures durability. It is also cheap."
    "Enhanced reasoning"
  = "We selected Postgres because it ensures durability.".
Proof. vm_compute. reflexivity. Qed.

(** ** Rationale extractor *)

Lemma truthy_false_iff (s : string) : PyStr.truthy s = false ↔ s = "".
Proof. destruct s; simpl; split; congruence. Qed.

Lemma has_key_phrase_nonempty (s : string) :
  has_key_phrase s = true → PyStr.truthy s = true.
Proof. destruct s; [vm_compute; congruence | reflexivity]. Qed.

Lemma collect_key_sentences_acc (sentences acc : list string) :
  foldl (fun key_sentences sentence =>
           let sentence := PyStr.strip sentence in
           if has_key_phrase sentence
           then
             let sentence :=
               if PyStr.truthy sentence && negb (PyStr.endswith sentence ".")
               then sentence +:+ "." else sentence in
             key_sentences ++ [sentence]
           else key_sentences)
        acc sentences
  = acc ++ (sentences ≫= key_sentence_of).
Proof.
  revert acc. induction sentences as [|s l IH]; intros acc; simpl.
  - by rewrite app_nil_r.
  - rewrite IH. unfold key_sentence_of at 2. cbv zeta.
    destruct (has_key_phrase (PyStr.strip s)) eqn:Hk; [|done].
    rewrite (has_key_phrase_nonempty _ Hk). unfold spec_close_sentence.
    destruct (PyStr.endswith (PyStr.strip s) "."); simpl;
      by rewrite <- app_assoc.
Qed.

Lemma collect_key_sentences_head (sentences : list string) :
  head (collect_key_sentences sentences)
  = spec_close_sentence
      <$> List.find has_key_phrase (PyStr.strip <$> sentences).
Proof.
  unfold collect_key_sentences. rewrite collect_key_sentences_acc. simpl.
  induction sentences as [|s l IH]; [done|]. simpl.
  unfold key_sentence_of at 1. cbv zeta.
  destruct (has_key_phrase (PyStr.strip s)); [done|]. apply IH.
Qed.

Lemma first_meaningful_find (sentences : list string) :
  first_meaningful sentences
  = clip150 <$> List.find (fun s => (30 <? String.length s)%nat)
                          (PyStr.strip <$> sentences).
Proof.
  induction sentences as [|s l IH]; [done|]. simpl.
  destruct (30 <? String.length (PyStr.strip s))%nat; [done|]. apply IH.
Qed.

Lemma extract_key_insight_refines (text context : string) :
  _extract_key_insight text context = spec_extract_key_insight text.
Proof.
  unfold _extract_key_insight, spec_extract_key_insight.
  destruct (decide (text = "")) as [->|Hne]; [done|].
  destruct (PyStr.truthy text) eqn:Ht;
    [|by apply truthy_false_iff in Ht]. simpl.
  pose proof (collect_key_sentences_head
                (PyStr.split ". " (PyStr.strip text))) as Hh.
  rewrite first_meaningful_find.
  destruct (List.find has_key_phrase _) as [s|].
  - destruct (collect_key_sentences _) as [|first rest]; simplify_eq/=. done.
  - destruct (collect_key_sentences _) as [|first rest]; simplify_eq/=.
    by destruct (List.find _ _).
Qed.

(** C6 (as amended): for every text the extractor returns what section
    4.6 describes once stripping and the 150-character cut are applied to
    every branch: the empty text gives the empty text; otherwise the
    stripped text is split on [". "], each sentence is stripped, and the
    result is the first sentence holding a decision phrase (compared in
    lower case) with a period appended if missing, else the first sentence
    longer than 30 characters, else the stripped text, in each case cut to
    150 characters plus ["..."] when longer.  The Postgres example yields
    its first sentence closed by a period. *)
Theorem extract_key_insight_spec :
  (∀ text context : string,
     _extract_key_insight text context = spec_extract_key_insight text)
  ∧ _extract_key_insight
      "We selected Postgres because it ensures durability. It is also cheap."
      "Enhanced reasoning"
    = "We selected Postgres because it ensures durability.".
Proof.
  split; [apply extract_key_insight_refines | by vm_compute].
Qed.

(** C6 (as stated) fails: [long_reason] is one sentence, holds a decision
    phrase and already ends in a period, so the claim gives [long_reason]
    itself; the extractor returns its first 150 characters and ["..."]. *)
Lemma extract_key_insight_long_sentence :
  PyStr.split ". " long_reason = [long_reason]
  ∧ has_key_phrase long_reason = true
  ∧ PyStr.endswith long_reason "." = true
  ∧ _extract_key_insight long_reason "Enhanced reasoning" ≠ long_reason
  ∧ _extract_key_insight long_reason "Enhanced reasoning"
    = PyStr.take 150 long_reason +:+ "...".
Proof. vm_compute. repeat split; congruence. Qed.

(** C10: the context label does not influence the extractor's result. *)
Theorem extract_key_insight_ignores_context (text c1 c2 : string) :
  _extract_key_insight text c1 = _extract_key_insight text c2.
Proof. reflexivity. Qed.

(** ** Sets, sorting and joining *)

Lemma sorted_Permutation (l1 l2 : list string) :
  l1 ≡ₚ l2 → PyStr.sorted l1 = PyStr.sorted l2.
Proof.
  intros Hp. unfold PyStr.sorted.
  apply (Sorted_unique String.le); try apply Sorted_merge_sort; try apply _.
  by rewrite !merge_sort_Permutation.
Qed.

Lemma spec_sorted_names_sorted (X : gset string) :
  StronglySorted String.le (spec_sorted_names X).
Proof. apply StronglySorted_merge_sort; apply _. Qed.

Lemma spec_sorted_names_elements (X : gset string) :
  spec_sorted_names X ≡ₚ elements X.
Proof. apply merge_sort_Permutation. Qed.

Lemma set_truthy_decide (X : gset string) :
  set_truthy X = if decide (X = ∅) then false else true.
Proof.
  unfold set_truthy. destruct (decide (X = ∅)) as [->|Hne].
  - by rewrite bool_decide_eq_false_2; [|intros []].
  - by rewrite bool_decide_eq_true_2.
Qed.

Lemma difference_both_empty (B E : gset string) :
  B ∖ E = ∅ → E ∖ B = ∅ → B = E.
Proof.
  intros H1 H2. apply set_eq. intros x.
  destruct (decide (x ∈ B)), (decide (x ∈ E)); set_solver.
Qed.

Section KeySets.

Variable set_iter : gset string → list string.
Hypothesis set_iter_perm : ∀ X, set_iter X ≡ₚ elements X.

Lemma sorted_set_iter (X : gset string) :
  PyStr.sorted (set_iter X) = spec_sorted_names X.
Proof. apply sorted_Permutation, set_iter_perm. Qed.

Lemma compare_key_sets_spec (B E : gset string) :
  compare_key_sets set_iter B E
  = {| same := bool_decide (B = E);
       differences := spec_key_set_text B E |}.
Proof.
  unfold compare_key_sets, spec_key_set_text, spec_only. f_equal.
  rewrite !set_truthy_decide, !sorted_set_iter.
  destruct (decide (B = E)) as [->|Hne].
  - by rewrite bool_decide_eq_true_2.
  - rewrite bool_decide_eq_false_2 by done. simpl.
    destruct (decide (B ∖ E = ∅)) as [H1|H1],
             (decide (E ∖ B = ∅)) as [H2|H2]; try done.
    by destruct Hne; apply difference_both_empty.
Qed.

(** C5: the services level returns [same] as the equality of the two
    sets of service codenames; its text is ["No differences"] when the
    sets are equal, and otherwise ["Baseline only: "] with the
    comma-joined sorted baseline-only names and/or ["Enhanced only: "]
    with the comma-joined sorted enhanced-only names, non-empty sides
    only, baseline part first, joined by ["; "].  The listed names are
    in lexicographic order and are exactly the elements of the side. *)
Theorem compare_services_level_spec (b e : Structure) :
  let B := Dict.key_set b.(services) in
  let E := Dict.key_set e.(services) in
  (_compare_services_level set_iter b e).(same) = bool_decide (B = E)
  ∧ (_compare_services_level set_iter b e).(differences)
    = spec_key_set_text B E
  ∧ (∀ X : gset string,
       StronglySorted String.le (spec_sorted_names X)
       ∧ spec_sorted_names X ≡ₚ elements X).
Proof.
  intros B E. unfold _compare_services_level.
  rewrite compare_key_sets_spec. simpl.
  split_and!; [done..|].
  intros X. split;
    [apply spec_sorted_names_sorted | apply spec_sorted_names_elements].
Qed.

End KeySets.

(** The services level on two concrete structures, visiting sets in the
    order of [elements]. *)
Lemma compare_services_level_spec_witness :
  (_compare_services_level elements services_api_cache services_api_db).(same)
  = false
  ∧ (_compare_services_level elements services_api_cache
       services_api_db).(differences)
    = "Baseline only: cache, queue; Enhanced only: db".
Proof.
  destruct (compare_services_level_spec elements
              (fun X => reflexivity (elements X))
              services_api_cache services_api_db) as (Hs & Hd & _).
  rewrite Hs, Hd. split; vm_compute; reflexivity.
Defined.

(** ** The per-component maps are images of the flattened components *)

Lemma fill_marks (attrs : list Raw.Attribute) (comp_key : string)
    (marks : gmap string AttrMark)
    (attributes : gmap string (gmap string AttrMark)) :
  foldl (fun attributes attr =>
           let attr_name := default "unknown" attr.(Raw.attribute_codename) in
           alter (fun marks =>
                    <[attr_name := {| codename := attr_name;
                                      exists_ := true |}]> marks)
                 comp_key attributes)
        (<[comp_key := marks]> attributes) attrs
  = <[comp_key :=
        foldl (fun marks attr =>
                 <[attribute_name attr := mark_of (attribute_name attr)]> marks)
              marks attrs]> attributes.
Proof.
  revert marks. induction attrs as [|a l IH]; intros marks; [done|].
  simpl. rewrite alter_insert_eq. apply IH.
Qed.

Lemma fill_configs (attrs : list Raw.Attribute) (comp_key : string)
    (n : Z) (srt : list pyval) (configs : gmap string Cfg.AttrConfig)
    (configurations : gmap string Cfg.Config) :
  foldl (fun configurations attr =>
           let attr_name := default "unknown" attr.(Raw.attribute_codename) in
           alter (fun c =>
                    {| Cfg.instances := c.(Cfg.instances);
                       Cfg.sort := c.(Cfg.sort);
                       Cfg.attributes :=
                         <[attr_name :=
                             {| Cfg.values :=
                                  default PNone attr.(Raw.attribute_values);
                                Cfg.constraint :=
                                  default PNone
                                    attr.(Raw.attribute_constraint_expr);
                                Cfg.unit :=
                                  default PNone attr.(Raw.attribute_unit) |}]>
                           c.(Cfg.attributes) |})
                 comp_key configurations)
        (<[comp_key := {| Cfg.instances := n; Cfg.sort := srt;
                          Cfg.attributes := configs |}]> configurations)
        attrs
  = <[comp_key :=
        {| Cfg.instances := n; Cfg.sort := srt;
           Cfg.attributes :=
             foldl (fun configs attr =>
                      <[attribute_name attr := attr_config_of attr]> configs)
                   configs attrs |}]> configurations.
Proof.
  revert configs. induction attrs as [|a l IH]; intros configs; [done|].
  simpl. rewrite alter_insert_eq. simpl. apply IH.
Qed.

Lemma get_all_attributes_flatten (structure : Structure) :
  _get_all_attributes structure
  = (fun comp_data => attribute_marks comp_data.(attributes_search_space))
      <$> flatten_components structure.
Proof.
  unfold _get_all_attributes, flatten_components, Dict.items.
  rewrite <- (fmap_empty (M := gmap string)
                (fun comp_data : ComponentEntry =>
                   attribute_marks comp_data.(attributes_search_space))).
  generalize (∅ : gmap string ComponentEntry) as comps.
  induction (services structure) as [|[service_name service_data] l IH];
    intros comps; [done|].
  simpl. rewrite <- IH. f_equal. clear IH.
  revert comps.
  induction (components service_data) as [|[comp_name comp_data] l' IH'];
    intros comps; [done|].
  simpl. rewrite <- IH'. f_equal.
  rewrite fill_marks, fmap_insert. done.
Qed.

Lemma get_all_configurations_flatten (structure : Structure) :
  _get_all_configurations structure
  = config_of <$> flatten_components structure.
Proof.
  unfold _get_all_configurations, flatten_components, Dict.items.
  rewrite <- (fmap_empty (M := gmap string) config_of).
  generalize (∅ : gmap string ComponentEntry) as comps.
  induction (services structure) as [|[service_name service_data] l IH];
    intros comps; [done|].
  simpl. rewrite <- IH. f_equal. clear IH.
  revert comps.
  induction (components service_data) as [|[comp_name comp_data] l' IH'];
    intros comps; [done|].
  simpl. rewrite <- IH'. f_equal.
  rewrite fill_configs, fmap_insert. done.
Qed.

(** ** Existence maps and codename sets *)

Lemma fold_marks_lookup (attrs : list Raw.Attribute)
    (marks : gmap string AttrMark) (n : string) :
  foldl (fun marks attr =>
           <[attribute_name attr := mark_of (attribute_name attr)]> marks)
        marks attrs !! n
  = if decide (n ∈ attribute_names attrs) then Some (mark_of n)
    else marks !! n.
Proof.
  revert marks. unfold attribute_names.
  induction attrs as [|a l IH]; intros marks; simpl.
  - by rewrite decide_False by set_solver.
  - rewrite IH. destruct (decide (n ∈ (list_to_set (attribute_name <$> l) : gset string))).
    + by rewrite decide_True by set_solver.
    + destruct (decide (n = attribute_name a)) as [->|Hne].
      * rewrite decide_True by set_solver. by rewrite lookup_insert_eq.
      * rewrite decide_False by set_solver. by rewrite lookup_insert_ne.
Qed.

Lemma attribute_marks_lookup (attrs : list Raw.Attribute) (n : string) :
  attribute_marks attrs !! n
  = if decide (n ∈ attribute_names attrs) then Some (mark_of n) else None.
Proof. unfold attribute_marks. by rewrite fold_marks_lookup, lookup_empty. Qed.

Lemma attribute_marks_dom (attrs : list Raw.Attribute) :
  dom (attribute_marks attrs) = attribute_names attrs.
Proof.
  apply set_eq. intros n. rewrite elem_of_dom, attribute_marks_lookup.
  destruct (decide _); [by split; eauto|]. split; [by intros []|done].
Qed.

Lemma attribute_marks_eq_iff (l1 l2 : list Raw.Attribute) :
  attribute_marks l1 = attribute_marks l2
  ↔ attribute_names l1 = attribute_names l2.
Proof.
  split.
  - intros H. by rewrite <- !attribute_marks_dom, H.
  - intros H. apply map_eq. intros n.
    by rewrite !attribute_marks_lookup, H.
Qed.

Lemma attributes_equal_iff (b e : Structure) :
  _get_all_attributes b = _get_all_attributes e
  ↔ ∀ comp_key : string,
      spec_attribute_names b comp_key = spec_attribute_names e comp_key.
Proof.
  unfold spec_attribute_names.
  rewrite !get_all_attributes_flatten, map_eq_iff.
  apply forall_proper. intros k. rewrite !lookup_fmap.
  destruct (flatten_components b !! k) as [cb|],
           (flatten_components e !! k) as [ce|]; simpl; try (split; congruence).
  split; intros H; simplify_eq; f_equal; by apply attribute_marks_eq_iff.
Qed.

(** C1 (as amended): the attributes level returns [same = True] exactly
    when every component key is either absent from both structures or
    present in both with the same set of attribute codenames.  A key that
    only one side has makes the structures differ, whatever its attribute
    list; the order in which sets are visited plays no part. *)
Theorem compare_attributes_level_same
    (set_iter : gset string → list string) (b e : Structure) :
  (_compare_attributes_level set_iter b e).(same) = true
  ↔ ∀ comp_key : string,
      spec_attribute_names b comp_key = spec_attribute_names e comp_key.
Proof.
  unfold _compare_attributes_level. simpl.
  rewrite bool_decide_eq_true. apply attributes_equal_iff.
Qed.

(** A key bound to the empty map cannot be told from an absent key once
    [.get(comp_key, {})] is used. *)
Lemma absent_as_empty {A : Type} (m : gmap string (gmap string A))
    (k k' : string) :
  m !! k = None →
  default ∅ (<[k := ∅]> m !! k') = default ∅ (m !! k').
Proof.
  intros Hk. destruct (decide (k = k')) as [<-|Hne].
  - by rewrite lookup_insert_eq, Hk.
  - by rewrite lookup_insert_ne.
Qed.

Lemma attribute_differences_at_equal
    (set_iter : gset string → list string)
    (baseline_attrs enhanced_attrs : gmap string (gmap string AttrMark))
    (comp_key : string) :
  default ∅ (baseline_attrs !! comp_key)
  = default ∅ (enhanced_attrs !! comp_key) →
  attribute_differences_at set_iter baseline_attrs enhanced_attrs comp_key
  = [].
Proof.
  intros H. unfold attribute_differences_at.
  by rewrite bool_decide_eq_false_2 by (by intros []).
Qed.

Lemma foldl_app_nil {A : Type} (f : A → list string) (l : list A) :
  (∀ x, f x = []) → foldl (fun acc x => acc ++ f x) [] l = [].
Proof.
  intros Hf. induction l as [|x l IH]; [done|]. simpl. by rewrite Hf.
Qed.

(** C1 (as stated) fails: with an absent key read as the empty map, the
    existence maps of [arch_bare_component] and [arch_no_component] agree
    at every component key, yet the attributes level reports
    [same = False]. *)
Lemma compare_attributes_level_absent_key :
  let b := _extract_architecture_structure (Some arch_bare_component) in
  let e := _extract_architecture_structure (Some arch_no_component) in
  (∀ comp_key : string,
     default ∅ (_get_all_attributes b !! comp_key)
     = default ∅ (_get_all_attributes e !! comp_key))
  ∧ (_compare_attributes_level elements b e).(same) = false.
Proof.
  intros b e. split.
  - intros k.
    change (_get_all_attributes b) with
      (<[ "db::c1_z" := ∅ ]> (_get_all_attributes e)).
    apply absent_as_empty. by vm_compute.
  - by vm_compute.
Qed.

(** C9: there are two architectures for which the attributes level
    returns [same = False] together with the text ["No differences"]:
    the component key [db::c1_z] exists on the baseline side only and has
    an empty attribute list, so the two maps differ while no component
    key has differing attribute names.  This holds whatever order sets
    are visited in. *)
Theorem compare_attributes_level_silent_difference :
  ∃ baseline_arch enhanced_arch : Raw.Architecture,
    let b := _extract_architecture_structure (Some baseline_arch) in
    let e := _extract_architecture_structure (Some enhanced_arch) in
    spec_attribute_names b "db::c1_z" = Some ∅
    ∧ spec_attribute_names e "db::c1_z" = None
    ∧ ∀ set_iter : gset string → list string,
        (_compare_attributes_level set_iter b e).(same) = false
        ∧ (_compare_attributes_level set_iter b e).(differences)
          = "No differences".
Proof.
  exists arch_with_bare, arch_without_bare. intros b e.
  split; [by vm_compute|]. split; [by vm_compute|].
  intros set_iter.
  assert ((_compare_attributes_level set_iter b e).(same) = false) as Hs
    by (by vm_compute).
  split; [done|].
  unfold _compare_attributes_level in *. simpl in *. rewrite Hs. simpl.
  rewrite foldl_app_nil; [done|].
  intros k. apply attribute_differences_at_equal.
  change (_get_all_attributes b) with
    (<[ "db::c1_z" := ∅ ]> (_get_all_attributes e)).
  apply absent_as_empty. by vm_compute.
Qed.

(** ** Configuration maps and attribute values *)

(** A loop of [m[key a] = val a] reads back the last write. *)
Lemma fold_insert_lookup {A B : Type} (key : A → string) (val : A → B)
    (l : list A) (m : gmap string B) (n : string) :
  foldl (fun m a => <[key a := val a]> m) m l !! n
  = match last (filter (fun a => key a = n) l) with
    | Some a => Some (val a)
    | None => m !! n
    end.
Proof.
  revert m. induction l as [|a l IH]; intros m; [done|].
  simpl. rewrite IH, filter_cons. case_decide as Hn.
  - rewrite last_cons. destruct (last _); [done|].
    by rewrite Hn, lookup_insert_eq.
  - destruct (last _); [done|]. by rewrite lookup_insert_ne.
Qed.

Lemma attribute_configs_values (attrs : list Raw.Attribute) (n : string) :
  Cfg.values <$> attribute_configs attrs !! n
  = spec_attribute_values attrs n.
Proof.
  unfold attribute_configs, spec_attribute_values.
  rewrite fold_insert_lookup, lookup_empty. by destruct (last _).
Qed.

Lemma configurations_differ (b e : Structure) (comp_key attr_name : string)
    (cb ce : ComponentEntry) :
  flatten_components b !! comp_key = Some cb →
  flatten_components e !! comp_key = Some ce →
  spec_attribute_values cb.(attributes_search_space) attr_name
  ≠ spec_attribute_values ce.(attributes_search_space) attr_name →
  _get_all_configurations b ≠ _get_all_configurations e.
Proof.
  intros Hb He Hv Heq. apply Hv.
  rewrite <- !attribute_configs_values.
  assert (config_of cb = config_of ce) as Hc.
  { apply (f_equal (fun m => m !! comp_key)) in Heq.
    rewrite !get_all_configurations_flatten, !lookup_fmap, Hb, He in Heq.
    simpl in Heq. congruence. }
  apply (f_equal Cfg.attributes) in Hc. simpl in Hc. by rewrite Hc.
Qed.

(** C4 (as amended): when the two sides have the same component keys,
    every component key carries the same set of attribute codenames on
    both sides and, for some component key and attribute codename, the
    values of the last attribute of that codename differ between the
    sides, the output row has [attributes_same = 1] with the attributes
    text ["No differences"], and [configurations_same = 0]: the
    attributes level sees codenames only, the configurations level sees
    what is stored per codename, a later attribute of a codename
    replacing an earlier one. *)
Theorem attributes_same_configurations_differ
    (set_iter : gset string → list string) (py_str : pyval → string)
    (self : Comparator) (arch_id : string)
    (baseline_arch enhanced_arch : Raw.Architecture) :
  let b := _extract_architecture_structure (Some baseline_arch) in
  let e := _extract_architecture_structure (Some enhanced_arch) in
  let row := _create_comparison_row set_iter py_str self arch_id
               (Some baseline_arch) (Some enhanced_arch) in
  (∀ comp_key : string,
     spec_attribute_names b comp_key = spec_attribute_names e comp_key) →
  (∃ (comp_key attr_name : string) (cb ce : ComponentEntry),
     flatten_components b !! comp_key = Some cb
     ∧ flatten_components e !! comp_key = Some ce
     ∧ spec_attribute_values cb.(attributes_search_space) attr_name
       ≠ spec_attribute_values ce.(attributes_search_space) attr_name) →
  row.(attributes_same) = 1%Z
  ∧ row.(attributes_differences) = "No differences"
  ∧ row.(configurations_same) = 0%Z.
Proof.
  intros b e row Hnames (k & a & cb & ce & Hb & He & Hv).
  unfold row, _create_comparison_row, _create_comparison_row_logged.
  unfold bind, call, ret. simpl. fold b e.
  assert (_get_all_attributes b = _get_all_attributes e) as Hattrs
    by by apply attributes_equal_iff.
  split_and!.
  - by rewrite bool_decide_eq_true_2.
  - by rewrite bool_decide_eq_true_2.
  - rewrite bool_decide_eq_false_2; [done|].
    by eapply configurations_differ.
Qed.

(** C4 on [arch_size_one] and [arch_size_two]. *)
Lemma attributes_same_configurations_differ_witness :
  let row := _create_comparison_row elements (fun _ => "")
               (comparator_of [arch_size_one] [arch_size_two]) "a1"
               (Some arch_size_one) (Some arch_size_two) in
  row.(attributes_same) = 1%Z
  ∧ row.(attributes_differences) = "No differences"
  ∧ row.(configurations_same) = 0%Z.
Proof.
  apply attributes_same_configurations_differ.
  - intros k. unfold spec_attribute_names. rewrite <- !lookup_fmap.
    f_equal.
  - exists "db::c1_x", "size".
    eexists; eexists. split; [by vm_compute|]. split; [by vm_compute|].
    by vm_compute.
Defined.

(** ** Lists built by appending in a loop *)

Lemma foldl_snoc_fmap {A B : Type} (f : A → B) (l : list A) (acc : list B) :
  foldl (fun acc x => acc ++ [f x]) acc l = acc ++ (f <$> l).
Proof.
  revert acc. induction l as [|x l IH]; intros acc; simpl.
  - by rewrite app_nil_r.
  - by rewrite IH, <- app_assoc.
Qed.

Lemma foldl_app_bind {A B : Type} (f : A → list B) (l : list A)
    (acc : list B) :
  foldl (fun acc x => acc ++ f x) acc l = acc ++ (l ≫= f).
Proof.
  revert acc. induction l as [|x l IH]; intros acc; simpl.
  - by rewrite app_nil_r.
  - by rewrite IH, <- app_assoc.
Qed.

Lemma Forall_foldl_app {A B : Type} (P : B → Prop) (f : A → list B)
    (l : list A) :
  (∀ x, Forall P (f x)) → Forall P (foldl (fun acc x => acc ++ f x) [] l).
Proof.
  intros Hf. rewrite foldl_app_bind. simpl.
  induction l as [|x l IH]; simpl; [constructor|].
  apply Forall_app. split; [apply Hf | apply IH].
Qed.

Lemma Forall_foldl_inv {A B : Type} (P : B → Prop)
    (step : list B → A → list B) (l : list A) (acc : list B) :
  (∀ acc x, Forall P acc → Forall P (step acc x)) →
  Forall P acc → Forall P (foldl step acc l).
Proof.
  intros Hstep. revert acc.
  induction l as [|x l IH]; intros acc Hacc; simpl; [done|].
  apply IH, Hstep, Hacc.
Qed.

(** ** Texts are never empty *)

Lemma app_nonempty_l (s t : string) : s ≠ "" → s +:+ t ≠ "".
Proof. destruct s; [done|]. intros _. discriminate. Qed.

Lemma app_nonempty_r (s t : string) : t ≠ "" → s +:+ t ≠ "".
Proof.
  destruct s; [done|]. intros _. discriminate.
Qed.

Lemma join_nonempty (sep : string) (l : list string) :
  l ≠ [] → Forall (fun s => s ≠ "") l → PyStr.join sep l ≠ "".
Proof.
  destruct l as [|x l]; [done|]. intros _ Hl.
  apply Forall_cons in Hl as [Hx _]. unfold PyStr.join. simpl.
  destruct l; [done|]. by apply app_nonempty_l.
Qed.

Lemma differences_text_nonempty (l : list string) :
  Forall (fun s => s ≠ "") l → differences_text l ≠ "".
Proof.
  intros Hl. unfold differences_text.
  destruct l as [|x l]; [done|]. by apply join_nonempty.
Qed.

Lemma Forall_if_singleton (P : string → Prop) (c : bool) (s : string) :
  P s → Forall P (if c then [s] else []).
Proof. destruct c; by repeat constructor. Qed.

Lemma compare_key_sets_nonempty (set_iter : gset string → list string)
    (B E : gset string) :
  (compare_key_sets set_iter B E).(differences) ≠ "".
Proof.
  unfold compare_key_sets. simpl. apply differences_text_nonempty.
  destruct (negb _); [|constructor].
  apply Forall_app; split; by apply Forall_if_singleton.
Qed.

Lemma compare_attributes_level_nonempty
    (set_iter : gset string → list string) (b e : Structure) :
  (_compare_attributes_level set_iter b e).(differences) ≠ "".
Proof.
  unfold _compare_attributes_level. simpl. apply differences_text_nonempty.
  destruct (negb _); [|constructor].
  apply Forall_foldl_app. intros k. unfold attribute_differences_at.
  destruct (bool_decide _); [|constructor].
  destruct (bool_decide _); [|constructor].
  destruct (_ || _); repeat constructor.
  by apply app_nonempty_r.
Qed.

Lemma compare_configurations_level_nonempty
    (set_iter : gset string → list string) (b e : Structure) :
  (_compare_configurations_level set_iter b e).(differences) ≠ "".
Proof.
  unfold _compare_configurations_level. simpl.
  apply differences_text_nonempty.
  destruct (negb _); [|constructor].
  apply Forall_foldl_app. intros k. unfold configuration_differences_at.
  destruct (bool_decide _); [|constructor].
  destruct (list_truthy _); repeat constructor.
  by apply app_nonempty_r.
Qed.

Lemma truthy_nonempty (s : string) : PyStr.truthy s = true → s ≠ "".
Proof. by destruct s. Qed.

Lemma labelled_insight_nonempty (label text context : string) :
  Forall (fun s => s ≠ "") (labelled_insight label text context).
Proof.
  unfold labelled_insight. destruct (PyStr.truthy text); [|constructor].
  destruct (PyStr.truthy _) eqn:Hk; repeat constructor.
  by apply app_nonempty_r, truthy_nonempty.
Qed.

Lemma describe_service_nonempty (py_str : pyval → string)
    (self : Comparator) (B E : gset string)
    (descriptions : list string) (service_name : string) :
  Forall (fun s => s ≠ "") descriptions →
  Forall (fun s => s ≠ "")
         (describe_service py_str self B E descriptions service_name).
Proof.
  intros Hd. unfold describe_service.
  destruct (_ && _).
  { destruct (list_truthy _); [|done].
    apply Forall_app; split; [done|]. repeat constructor.
    by apply app_nonempty_r, app_nonempty_l. }
  destruct (_ && _).
  { repeat (apply Forall_app; split); try done;
      apply labelled_insight_nonempty. }
  destruct (_ && _); [|done].
  apply Forall_app; split; [done | apply labelled_insight_nonempty].
Qed.

Lemma describe_common_service_nonempty (self : Comparator)
    (descriptions : list string) (service_name : string) :
  Forall (fun s => s ≠ "") descriptions →
  Forall (fun s => s ≠ "")
         (describe_common_service self descriptions service_name).
Proof.
  intros Hd. unfold describe_common_service.
  destruct (PyStr.truthy _).
  { apply Forall_app; split; [done | apply labelled_insight_nonempty]. }
  destruct (PyStr.truthy _); [|done].
  apply Forall_app; split; [done | apply labelled_insight_nonempty].
Qed.

Lemma get_reasoning_description_nonempty
    (set_iter : gset string → list string) (py_str : pyval → string)
    (self : Comparator) (b e : Structure) :
  _get_reasoning_description set_iter py_str self b e ≠ "".
Proof.
  unfold _get_reasoning_description. cbv zeta.
  set (d1 := foldl (describe_service _ _ _ _) [] _).
  assert (Forall (fun s => s ≠ "") d1) as H1.
  { apply Forall_foldl_inv; [|constructor].
    intros acc x. apply describe_service_nonempty. }
  set (d2 := if negb (list_truthy d1) then _ else d1).
  assert (Forall (fun s => s ≠ "") d2) as H2.
  { unfold d2. destruct (negb _); [|done].
    apply Forall_foldl_inv; [|done].
    intros acc x. apply describe_common_service_nonempty. }
  destruct d2 as [|x l]; [done|].
  change (list_truthy (x :: l)) with true. cbv iota.
  by apply join_nonempty.
Qed.

(** ** One row per architecture identifier *)

Lemma create_comparison_row_id (set_iter : gset string → list string)
    (py_str : pyval → string) (self : Comparator) (arch_id : string)
    (baseline_arch enhanced_arch : option Raw.Architecture) :
  (_create_comparison_row set_iter py_str self arch_id
     baseline_arch enhanced_arch).(architecture_id) = arch_id.
Proof. by destruct baseline_arch, enhanced_arch. Qed.

Lemma create_comparison_row_well_formed
    (set_iter : gset string → list string)
    (py_str : pyval → string) (self : Comparator) (arch_id : string)
    (baseline_arch enhanced_arch : option Raw.Architecture) :
  spec_row_well_formed
    (_create_comparison_row set_iter py_str self arch_id
       baseline_arch enhanced_arch).
Proof.
  unfold spec_row_well_formed, is_flag.
  destruct baseline_arch as [ba|], enhanced_arch as [ea|];
    try (simpl; split_and!; by auto).
  unfold _create_comparison_row, _create_comparison_row_logged.
  unfold bind, call, ret. simpl.
  split_and!; try (by destruct (bool_decide _); auto).
  - apply compare_key_sets_nonempty.
  - apply compare_key_sets_nonempty.
  - apply compare_attributes_level_nonempty.
  - apply compare_configurations_level_nonempty.
  - apply get_reasoning_description_nonempty.
Qed.

Lemma index_architectures_dom (data : Raw.ArchitectureSet) :
  dom (index_architectures data) = list_to_set (architecture_ids data).
Proof.
  unfold index_architectures, architecture_ids.
  generalize (default [] (Raw.architectures data)). intros l.
  assert (∀ m : gmap string Raw.Architecture,
            dom (foldl (fun archs arch =>
                          <[arch.(Raw.architecture_id) := arch]> archs) m l)
            = dom m ∪ list_to_set (Raw.architecture_id <$> l)) as H.
  { induction l as [|a l IH]; intros m; simpl; [set_solver|].
    rewrite IH, dom_insert_L. set_solver. }
  rewrite H, dom_empty_L. set_solver.
Qed.

Lemma compare_all_fmap (set_iter : gset string → list string)
    (py_str : pyval → string) (self : Comparator) :
  compare_all_architectures_tabular set_iter py_str self
  = (fun arch_id =>
       _create_comparison_row set_iter py_str self arch_id
         (index_architectures self.(baseline_data) !! arch_id)
         (index_architectures self.(enhanced_data) !! arch_id))
      <$> PyStr.sorted
            (set_iter (dom (index_architectures self.(baseline_data))
                       ∪ dom (index_architectures self.(enhanced_data)))).
Proof.
  unfold compare_all_architectures_tabular. cbv zeta.
  by rewrite foldl_snoc_fmap.
Qed.

Lemma compare_all_ids (set_iter : gset string → list string)
    (py_str : pyval → string) (self : Comparator) :
  architecture_id <$> compare_all_architectures_tabular set_iter py_str self
  = PyStr.sorted
      (set_iter (dom (index_architectures self.(baseline_data))
                 ∪ dom (index_architectures self.(enhanced_data)))).
Proof.
  rewrite compare_all_fmap, <- list_fmap_compose.
  rewrite <- (list_fmap_id (PyStr.sorted _)) at 2.
  apply list_fmap_ext. intros i x _. apply create_comparison_row_id.
Qed.

Lemma index_architectures_lookup (data : Raw.ArchitectureSet)
    (arch_id : string) :
  (arch_id ∈ architecture_ids data
   → is_Some (index_architectures data !! arch_id))
  ∧ (arch_id ∉ architecture_ids data
     → index_architectures data !! arch_id = None).
Proof.
  rewrite <- elem_of_dom, <- not_elem_of_dom, index_architectures_dom.
  set_solver.
Qed.

Section Rows.

Variable set_iter : gset string → list string.
Variable py_str : pyval → string.
Hypothesis set_iter_perm : ∀ X, set_iter X ≡ₚ elements X.

Lemma compare_all_ids_sorted (self : Comparator) :
  architecture_id <$> compare_all_architectures_tabular set_iter py_str self
  = spec_sorted_names
      (list_to_set (architecture_ids self.(baseline_data))
       ∪ list_to_set (architecture_ids self.(enhanced_data))).
Proof.
  rewrite compare_all_ids, (sorted_set_iter set_iter set_iter_perm).
  by rewrite !index_architectures_dom.
Qed.

(** C7: the comparison produces exactly one row per architecture
    identifier found in either document set, in ascending order of
    identifier; in every row each of the four flags is 0 or 1 and each
    of the four difference texts and the reasoning description is a
    non-empty string. *)
Theorem compare_all_rows_spec (self : Comparator) :
  let rows := compare_all_architectures_tabular set_iter py_str self in
  let ids := architecture_id <$> rows in
  (∀ arch_id : string,
     arch_id ∈ ids
     ↔ arch_id ∈ architecture_ids self.(baseline_data)
       ∨ arch_id ∈ architecture_ids self.(enhanced_data))
  ∧ NoDup ids
  ∧ StronglySorted String.le ids
  ∧ Forall spec_row_well_formed rows.
Proof.
  intros rows ids. unfold ids, rows. rewrite compare_all_ids_sorted.
  split_and!.
  - intros arch_id. rewrite spec_sorted_names_elements, elem_of_elements.
    set_solver.
  - rewrite spec_sorted_names_elements. apply NoDup_elements.
  - apply spec_sorted_names_sorted.
  - rewrite compare_all_fmap. apply Forall_fmap, Forall_forall.
    intros arch_id _. apply create_comparison_row_well_formed.
Qed.

(** C3: for an architecture identifier found in exactly one document
    set, the row produced for it has the four flags 0, the four
    difference texts ["Architecture only in baseline"] (respectively
    ["... enhanced"]) and the reasoning description ["Architecture exists
    only in baseline dataset"] (respectively enhanced); producing it
    calls none of the level differencers, nor the normalizer, nor the
    reasoning description (the only caller of the rationale extractor);
    and every row of the output that carries this identifier is that
    row. *)
Theorem only_one_side_row (self : Comparator) (arch_id : string) :
  let produced :=
    _create_comparison_row_logged set_iter py_str self arch_id
      (index_architectures self.(baseline_data) !! arch_id)
      (index_architectures self.(enhanced_data) !! arch_id) in
  (arch_id ∈ architecture_ids self.(baseline_data) →
   arch_id ∉ architecture_ids self.(enhanced_data) →
   produced = (spec_only_baseline_row arch_id, []))
  ∧ (arch_id ∉ architecture_ids self.(baseline_data) →
     arch_id ∈ architecture_ids self.(enhanced_data) →
     produced = (spec_only_enhanced_row arch_id, []))
  ∧ (∀ row : TabularComparisonRow,
       row ∈ compare_all_architectures_tabular set_iter py_str self →
       row.(architecture_id) = arch_id →
       row = produced.1).
Proof.
  intros produced. unfold produced. split_and!.
  - intros [a Hb]%index_architectures_lookup He%index_architectures_lookup.
    by rewrite Hb, He.
  - intros Hb%index_architectures_lookup [a He]%index_architectures_lookup.
    by rewrite Hb, He.
  - intros row Hrow Hid. rewrite compare_all_fmap in Hrow.
    apply list_elem_of_fmap in Hrow as (id' & -> & _).
    rewrite create_comparison_row_id in Hid. by subst id'.
Qed.

End Rows.

(** C7 on the documents with [archA] on the baseline side and [archB] on
    the enhanced side: two rows, [archA] first. *)
Lemma compare_all_rows_spec_witness :
  let rows := compare_all_architectures_tabular elements (fun _ => "")
                comparator_archA_archB in
  architecture_id <$> rows = ["archA"; "archB"]
  ∧ NoDup (architecture_id <$> rows)
  ∧ StronglySorted String.le (architecture_id <$> rows)
  ∧ Forall spec_row_well_formed rows.
Proof.
  intros rows.
  destruct (compare_all_rows_spec elements (fun _ => "")
              (fun X => reflexivity (elements X)) comparator_archA_archB)
    as (_ & Hnodup & Hsorted & Hrows).
  split; [by vm_compute|]. by split_and!.
Defined.

(** C3 on the same documents: the rows of [archA] and [archB]. *)
Lemma only_one_side_row_witness :
  _create_comparison_row_logged elements (fun _ => "")
    comparator_archA_archB "archA"
    (index_architectures comparator_archA_archB.(baseline_data) !! "archA")
    (index_architectures comparator_archA_archB.(enhanced_data) !! "archA")
  = (spec_only_baseline_row "archA", [])
  ∧ _create_comparison_row_logged elements (fun _ => "")
      comparator_archA_archB "archB"
      (index_architectures comparator_archA_archB.(baseline_data) !! "archB")
      (index_architectures comparator_archA_archB.(enhanced_data) !! "archB")
    = (spec_only_enhanced_row "archB", []).
Proof.
  split.
  - apply (only_one_side_row elements (fun _ => "")
             comparator_archA_archB "archA");
      [refine (bool_decide_unpack _ _); by vm_compute..].
  - apply (only_one_side_row elements (fun _ => "")
             comparator_archA_archB "archB");
      [refine (bool_decide_unpack _ _); by vm_compute..].
Defined.

(** ** Dependence on the order in which sets are visited *)

Lemma ascending_elements (X : gset string) : ascending X ≡ₚ elements X.
Proof. apply merge_sort_Permutation. Qed.

Lemma descending_elements (X : gset string) : descending X ≡ₚ elements X.
Proof.
  unfold descending. rewrite reverse_Permutation.
  apply merge_sort_Permutation.
Qed.

(** C8 does not hold of the code: [ascending] and [descending] both
    visit every element of a set exactly once, and on
    [comparator_two_keys] the comparison yields one attributes text when
    sets are visited in the first order and another when they are visited
    in the second.  The loop over [all_comp_keys] in
    [_compare_attributes_level] visits a set without sorting it. *)
Theorem comparison_depends_on_set_order :
  (∀ X, ascending X ≡ₚ elements X)
  ∧ (∀ X, descending X ≡ₚ elements X)
  ∧ attributes_differences
      <$> compare_all_architectures_tabular ascending (fun _ => "")
            comparator_two_keys
    = ["db::c1_x (baseline only: size; enhanced only: capacity); "
       +:+ "db::c1_y (baseline only: tier; enhanced only: class)"]
  ∧ attributes_differences
      <$> compare_all_architectures_tabular descending (fun _ => "")
            comparator_two_keys
    = ["db::c1_y (baseline only: tier; enhanced only: class); "
       +:+ "db::c1_x (baseline only: size; enhanced only: capacity)"]
  ∧ compare_all_architectures_tabular ascending (fun _ => "")
      comparator_two_keys
    ≠ compare_all_architectures_tabular descending (fun _ => "")
        comparator_two_keys.
Proof.
  split; [apply ascending_elements|].
  split; [apply descending_elements|].
  split; [by vm_compute|]. split; [by vm_compute|].
  intros H. apply (f_equal (fmap attributes_differences)) in H.
  vm_compute in H. discriminate H.
Qed.

(** ** Ordered dictionaries and their maps *)

Lemma to_map_get {V : Type} (k : string) (d : Dict.t V) :
  Dict.get k d = Dict.to_map d !! k.
Proof.
  unfold Dict.to_map. induction d as [|[k' v] d IH]; [done|].
  simpl. rewrite lookup_insert. destruct (decide (k = k')) as [->|Hne].
  - by rewrite decide_True.
  - by rewrite decide_False.
Qed.

Lemma to_map_mem {V : Type} (k : string) (d : Dict.t V) :
  Dict.mem k d = true ↔ is_Some (Dict.to_map d !! k).
Proof.
  unfold Dict.mem. rewrite to_map_get.
  destruct (_ !! _); split; try done; by intros [].
Qed.

Lemma to_map_set {V : Type} (k : string) (v : V) (d : Dict.t V) :
  Dict.to_map (Dict.set k v d) = <[k := v]> (Dict.to_map d).
Proof.
  unfold Dict.to_map. induction d as [|[k' v'] d IH]; [done|].
  simpl. destruct (decide (k = k')) as [->|Hne]; simpl.
  - by rewrite insert_insert_eq.
  - by rewrite IH, insert_insert_ne.
Qed.

Lemma to_map_alter {V : Type} (f : V → V) (k : string) (d : Dict.t V) :
  Dict.to_map (Dict.alter f k d) = alter f k (Dict.to_map d).
Proof.
  unfold Dict.to_map. induction d as [|[k' v'] d IH]; simpl.
  - by rewrite alter_empty.
  - destruct (decide (k = k')) as [->|Hne]; simpl.
    + by rewrite alter_insert_eq.
    + by rewrite IH, alter_insert_ne.
Qed.

(** ** One round of the normalizer, seen through the views *)

Lemma with_components_id (v : ServiceView) :
  with_components v v.(view_components) = v.
Proof. by destruct v. Qed.

Lemma services_view_store (name k : string) (e : ComponentEntry)
    (d : Dict.t ServiceEntry) :
  services_view (store_component name k e d)
  = alter (fun v => with_components v (<[k := e]> v.(view_components)))
          name (services_view d).
Proof.
  unfold services_view, store_component. rewrite to_map_alter.
  apply fmap_alter. intros s _. unfold view_of, with_components. simpl.
  by rewrite to_map_set.
Qed.

Lemma services_view_store_all (c : Raw.Component) (name : string)
    (parts : list Raw.ServiceComponent)
    (d : Dict.t ServiceEntry) (v : ServiceView) :
  services_view d !! name = Some v →
  services_view
    (foldl (fun services service_component =>
              store_component name (raw_entry c service_component).1
                (raw_entry c service_component).2 services)
           d parts)
  = <[name :=
        with_components v
          (foldl (fun m entry => <[entry.1 := entry.2]> m)
                 v.(view_components) (raw_entry c <$> parts))]>
      (services_view d).
Proof.
  revert d v. induction parts as [|p parts IH]; intros d v Hv.
  - simpl. by rewrite with_components_id, insert_id.
  - simpl. erewrite IH; last first.
    { rewrite services_view_store, lookup_alter_eq, Hv. done. }
    rewrite services_view_store, insert_alter_eq. done.
Qed.

Lemma services_view_add_component (d : Dict.t ServiceEntry)
    (c : Raw.Component) :
  let v := default (fresh_view c) (services_view d !! raw_service_name c) in
  services_view (add_component d c)
  = <[raw_service_name c :=
        with_components v
          (foldl (fun m entry => <[entry.1 := entry.2]> m)
                 v.(view_components) (raw_entries c))]>
      (services_view d).
Proof.
  intros v. unfold add_component.
  change (default "Unknown"
            (Raw.service_codename
               (default Raw.empty_service_space
                  (Raw.service_search_space c))))
    with (raw_service_name c).
  set (d1 := if negb (Dict.mem (raw_service_name c) d) then _ else d).
  assert (services_view d1 = <[raw_service_name c := v]> (services_view d))
    as Hd1.
  { unfold d1, v, services_view.
    destruct (Dict.mem (raw_service_name c) d) eqn:Hm; simpl.
    - apply to_map_mem in Hm as [s Hs].
      rewrite lookup_fmap, Hs. simpl.
      symmetry. apply insert_id. by rewrite lookup_fmap, Hs.
    - assert (Dict.to_map d !! raw_service_name c = None) as Hn.
      { destruct (Dict.to_map d !! raw_service_name c) eqn:E; [|done].
        assert (Dict.mem (raw_service_name c) d = true)
          by (apply to_map_mem; eauto). congruence. }
      rewrite lookup_fmap, Hn, to_map_set, fmap_insert. done. }
  rewrite (services_view_store_all c (raw_service_name c) _ d1 v).
  - by rewrite Hd1, insert_insert_eq.
  - by rewrite Hd1, lookup_insert_eq.
Qed.

(** ** What the normalizer stores *)

Lemma components_of_service_snoc (l : list Raw.Component)
    (c : Raw.Component) (s : string) :
  components_of_service (l ++ [c]) s
  = components_of_service l s
    ++ (if decide (raw_service_name c = s) then [c] else []).
Proof.
  unfold components_of_service.
  rewrite filter_app, filter_cons, filter_nil. by case_decide.
Qed.

Lemma normalize_view_lookup (l : list Raw.Component) (s : string) :
  let V := services_view (foldl add_component [] l) in
  view_codename <$> V !! s
  = (fun _ => s) <$> head (components_of_service l s)
  ∧ view_select <$> V !! s = spec_first_select l s
  ∧ ∀ k : string,
      (V !! s ≫= fun v => v.(view_components) !! k)
      = spec_last_entry l s k.
Proof.
  induction l as [|c l IH] using rev_ind; [done|].
  destruct IH as (IHc & IHs & IHk). cbv zeta in *.
  rewrite foldl_snoc, services_view_add_component.
  unfold spec_first_select, spec_last_entry in *.
  rewrite components_of_service_snoc.
  set (V := services_view (foldl add_component [] l)) in *.
  destruct (decide (raw_service_name c = s)) as [Hs|Hs].
  - rewrite Hs, lookup_insert_eq. simpl.
    rewrite head_app, bind_app. simpl. rewrite app_nil_r.
    destruct (V !! s) as [v0|] eqn:HV; simpl in *.
    + destruct (head (components_of_service l s)) as [c0|]; [|done].
      simpl in *. split_and!; [done..|].
      intros k.
      rewrite fold_insert_lookup, filter_app, last_app.
      destruct (last (filter _ (raw_entries c))); [done|].
      by rewrite <- IHk.
    + destruct (head (components_of_service l s)) as [c0|]; [done|].
      simpl. split_and!; [by rewrite <- Hs|done|].
      intros k.
      rewrite fold_insert_lookup, filter_app, last_app.
      destruct (last (filter _ (raw_entries c))); [done|].
      by rewrite <- IHk.
  - rewrite lookup_insert_ne by done. by rewrite app_nil_r.
Qed.

(** ** Reordering the raw components *)

Lemma head_agree {A B : Type} (f : A → B) (l1 l2 : list A) :
  l1 ≡ₚ l2 →
  (∀ x y, x ∈ l1 → y ∈ l1 → f x = f y) →
  f <$> head l1 = f <$> head l2.
Proof.
  intros Hp Hf. destruct l1 as [|a l1].
  - apply Permutation_nil_l in Hp. by subst.
  - destruct l2 as [|b l2].
    + by apply Permutation_nil_r in Hp.
    + simpl. f_equal. apply Hf; [by left|].
      rewrite Hp. by left.
Qed.

Lemma last_agree {A B : Type} (f : A → B) (l1 l2 : list A) :
  l1 ≡ₚ l2 →
  (∀ x y, x ∈ l1 → y ∈ l1 → f x = f y) →
  f <$> last l1 = f <$> last l2.
Proof.
  intros Hp Hf.
  destruct (last l1) as [a|] eqn:H1, (last l2) as [b|] eqn:H2; simpl.
  - f_equal. apply Hf; [by apply last_Some_elem_of|].
    rewrite Hp. by apply last_Some_elem_of.
  - apply last_None in H2. subst. apply Permutation_nil_r in Hp. by subst.
  - apply last_None in H1. subst. apply Permutation_nil_l in Hp. by subst.
  - done.
Qed.

Lemma components_of_service_Permutation (l l' : list Raw.Component)
    (s : string) :
  l ≡ₚ l' → components_of_service l s ≡ₚ components_of_service l' s.
Proof. intros Hp. unfold components_of_service. by rewrite Hp. Qed.

Lemma components_of_service_elem (l : list Raw.Component) (s : string)
    (c : Raw.Component) :
  c ∈ components_of_service l s ↔ raw_service_name c = s ∧ c ∈ l.
Proof. unfold components_of_service. by rewrite list_elem_of_filter. Qed.

Lemma service_view_eq (o1 o2 : option ServiceView) :
  view_codename <$> o1 = view_codename <$> o2 →
  view_select <$> o1 = view_select <$> o2 →
  (∀ k : string,
     (o1 ≫= fun v => v.(view_components) !! k)
     = (o2 ≫= fun v => v.(view_components) !! k)) →
  o1 = o2.
Proof.
  destruct o1 as [[n1 s1 m1]|], o2 as [[n2 s2 m2]|]; simpl; try done.
  intros [= ->] [= ->] Hk. f_equal. f_equal. by apply map_eq.
Qed.

Lemma normalize_view_Permutation (l l' : list Raw.Component) :
  l ≡ₚ l' → select_agrees l → keys_agree l →
  services_view (foldl add_component [] l)
  = services_view (foldl add_component [] l').
Proof.
  intros Hp Hsel Hkeys. apply map_eq. intros s.
  destruct (normalize_view_lookup l s) as (Hc & Hs & Hk).
  destruct (normalize_view_lookup l' s) as (Hc' & Hs' & Hk').
  pose proof (components_of_service_Permutation l l' s Hp) as Hcs.
  apply service_view_eq.
  - rewrite Hc, Hc'. by apply head_agree.
  - rewrite Hs, Hs'. unfold spec_first_select. apply head_agree; [done|].
    intros x y [Hx ?]%components_of_service_elem
               [Hy ?]%components_of_service_elem.
    apply Hsel; [done..|]. by rewrite Hx, Hy.
  - intros k. rewrite Hk, Hk'. unfold spec_last_entry.
    apply last_agree; [by rewrite Hcs|].
    intros [k1 e1] [k2 e2].
    rewrite !list_elem_of_filter, !list_elem_of_bind. simpl.
    intros [-> (c1 & He1 & [Hn1 Hc1]%components_of_service_elem)]
           [-> (c2 & He2 & [Hn2 Hc2]%components_of_service_elem)].
    eapply (Hkeys c1 c2); [done..| |done|done]. by rewrite Hn1, Hn2.
Qed.

(** C2 (as amended): for every raw document, the normalized architecture
    holds, for each service, the select attributes of the first raw
    component of that service in document order, and under each
    composite key the entry of the last service component with that key
    in document order (last write wins).  Hence every reordering of the
    component list of a document in which components of one service
    carry the same select attributes and no composite key of a service
    is bound to two different entries yields the same normalized
    architecture. *)
Theorem normalizer_reordering (arch arch' : Raw.Architecture) :
  let V := structure_view (_extract_architecture_structure (Some arch)) in
  let V' := structure_view (_extract_architecture_structure (Some arch')) in
  (∀ s : string,
     view_codename <$> V !! s
     = (fun _ => s) <$> head (components_of_service (raw_components arch) s)
     ∧ view_select <$> V !! s = spec_first_select (raw_components arch) s
     ∧ ∀ k : string,
         (V !! s ≫= fun v => v.(view_components) !! k)
         = spec_last_entry (raw_components arch) s k)
  ∧ (raw_components arch ≡ₚ raw_components arch' →
     select_agrees (raw_components arch) →
     keys_agree (raw_components arch) →
     V = V').
Proof.
  split.
  - intros s. apply normalize_view_lookup.
  - apply normalize_view_Permutation.
Qed.

(** C2 (as stated) fails: the two raw components have no service
    component, so no composite key occurs at all, yet swapping them
    changes the select attributes stored for service [db]. *)
Lemma normalizer_select_order :
  let l := [component_select_cpu; component_select_ram] in
  let l' := [component_select_ram; component_select_cpu] in
  l ≡ₚ l'
  ∧ raw_entries component_select_cpu = []
  ∧ raw_entries component_select_ram = []
  ∧ structure_view
      (_extract_architecture_structure (Some (architecture_of l)))
    ≠ structure_view
        (_extract_architecture_structure (Some (architecture_of l'))).
Proof.
  intros l l'. split; [apply perm_swap|]. split; [done|]. split; [done|].
  intros H.
  apply (f_equal (fun V => view_select <$> V !! "db")) in H.
  vm_compute in H. discriminate H.
Qed.

(** C2 on [components_three] and a reordering of it. *)
Lemma normalizer_reordering_witness :
  structure_view
    (_extract_architecture_structure
       (Some (architecture_of components_three)))
  = structure_view
      (_extract_architecture_structure
         (Some (architecture_of components_three_reordered))).
Proof.
  apply (normalizer_reordering (architecture_of components_three)
           (architecture_of components_three_reordered)).
  - refine (bool_decide_unpack _ _). by vm_compute.
  - intros c1 c2 H1 H2 Hn. simpl in H1, H2. unfold components_three in *.
    set_unfold.
    destruct H1 as [-> | [-> | [-> | []]]], H2 as [-> | [-> | [-> | []]]];
      try done; by vm_compute in Hn.
  - intros c1 c2 k e1 e2 H1 H2 Hn He1 He2. simpl in H1, H2.
    unfold components_three in *.
    set_unfold.
    destruct H1 as [-> | [-> | [-> | []]]], H2 as [-> | [-> | [-> | []]]];
      vm_compute in Hn; try done;
      vm_compute in He1, He2; set_unfold; naive_solver.
Defined.

(** * Further properties of the comparator *)

(** ** Length and emptiness of an extracted insight *)

Lemma length_append (s t : string) :
  String.length (s +:+ t) = String.length s + String.length t.
Proof. induction s as [|c s IH]; simpl; [done|]. by rewrite IH. Qed.

Lemma length_take (n : nat) (s : string) :
  String.length (PyStr.take n s) = n `min` String.length s.
Proof.
  unfold PyStr.take. revert s.
  induction n as [|n IH]; intros [|c s]; simpl; try done.
  by rewrite IH.
Qed.

Lemma clip150_length (s : string) : String.length (clip150 s) ≤ 153.
Proof.
  unfold clip150. rewrite length_append, length_take.
  destruct (150 <? String.length s)%nat eqn:H.
  - change (String.length "...") with 3. lia.
  - change (String.length "") with 0. apply Nat.ltb_ge in H. lia.
Qed.

Lemma clip150_empty_iff (s : string) : clip150 s = "" ↔ s = "".
Proof.
  split; [|by intros ->]. destruct s as [|c s]; [done|].
  unfold clip150, PyStr.take. simpl. discriminate.
Qed.

Lemma spec_close_sentence_nonempty (s : string) : spec_close_sentence s ≠ "".
Proof.
  unfold spec_close_sentence. destruct (PyStr.endswith s ".") eqn:He.
  - destruct s; [by vm_compute in He | done].
  - by apply app_nonempty_r.
Qed.

(** X1: whatever the text, the extracted insight is at most 153
    characters long (150 characters and the three dots). *)
Theorem extract_key_insight_length (text context : string) :
  String.length (_extract_key_insight text context) ≤ 153.
Proof.
  rewrite extract_key_insight_refines. unfold spec_extract_key_insight.
  destruct (decide (text = "")); [simpl; lia|].
  repeat case_match; apply clip150_length.
Qed.

(** X2: the extracted insight is empty exactly when the text is empty
    or consists of white space only; any other text yields a non-empty
    insight, so the callers' test [if key_insight:] only drops blank
    rationales. *)
Theorem extract_key_insight_empty_iff (text context : string) :
  _extract_key_insight text context = "" ↔ PyStr.strip text = "".
Proof.
  rewrite extract_key_insight_refines. unfold spec_extract_key_insight.
  destruct (decide (text = "")) as [->|Hne]; [done|].
  destruct (List.find has_key_phrase _) as [s|] eqn:Hk.
  { pose proof Hk as Hk'. apply find_some in Hk' as [_ Hs]. split.
    - intros H. apply (proj1 (clip150_empty_iff _)) in H.
      by apply spec_close_sentence_nonempty in H.
    - intros H. rewrite H in Hk. by vm_compute in Hk. }
  destruct (List.find (fun s => (30 <? String.length s)%nat) _)
    as [s|] eqn:Hl.
  { pose proof Hl as Hl'. apply find_some in Hl as [_ Hs]. split.
    - intros H. apply (proj1 (clip150_empty_iff _)) in H. subst s.
      by vm_compute in Hs.
    - intros H. rewrite H in Hl'. by vm_compute in Hl'. }
  apply clip150_empty_iff.
Qed.

(** ** Reasoning lookup and architecture index *)

Lemma create_reasoning_lookup_fold (l : list Raw.Reasoning)
    (m : gmap string Raw.Reasoning) (name : string) :
  foldl (fun lookup reasoning_obj =>
           match reasoning_obj.(Raw.reasoning_service_codename) with
           | Some service_name =>
               if PyStr.truthy service_name
               then <[service_name := reasoning_obj]> lookup
               else lookup
           | None => lookup
           end) m l !! name
  = if decide (name = "") then m !! name
    else match last (filter (fun r => r.(Raw.reasoning_service_codename)
                                      = Some name) l) with
         | Some r => Some r
         | None => m !! name
         end.
Proof.
  revert m. induction l as [|r l IH]; intros m; simpl.
  - by destruct (decide _).
  - rewrite IH, filter_cons. clear IH.
    destruct (decide (name = "")) as [->|Hne].
    + destruct (Raw.reasoning_service_codename r) as [[|c n]|]; simpl; try done.
      by rewrite lookup_insert_ne.
    + case_decide as Hr.
      * rewrite Hr, last_cons. destruct name as [|c n]; [done|]. simpl.
        destruct (last _); [done|]. by rewrite lookup_insert_eq.
      * destruct (last _); [done|].
        destruct (Raw.reasoning_service_codename r) as [n|]; [|done].
        destruct (PyStr.truthy n); [|done].
        rewrite lookup_insert_ne; [done|]. congruence.
Qed.

(** X3: the reasoning lookup holds, under every non-empty service name,
    the last reasoning object of the document that carries this name;
    objects without a name or with an empty name are not stored, and the
    empty name is never a key. *)
Theorem create_reasoning_lookup_spec (data : Raw.ReasoningSet)
    (name : string) :
  _create_reasoning_lookup data !! name
  = if decide (name = "") then None
    else last (filter (fun r => r.(Raw.reasoning_service_codename)
                                = Some name) (reasoning_list data)).
Proof.
  unfold _create_reasoning_lookup, reasoning_list.
  rewrite create_reasoning_lookup_fold, lookup_empty.
  destruct (decide _); [done|]. by destruct (last _).
Qed.

Lemma index_architectures_last (data : Raw.ArchitectureSet)
    (arch_id : string) :
  index_architectures data !! arch_id = spec_last_architecture data arch_id.
Proof.
  unfold index_architectures, spec_last_architecture, architecture_list.
  rewrite (fold_insert_lookup Raw.architecture_id id), lookup_empty.
  by destruct (last _).
Qed.

(** X4: every row of the comparison is the row of its identifier built
    from the last baseline document and the last enhanced document that
    carry this identifier: when a document set repeats an identifier,
    the later document is the one compared. *)
Theorem compare_all_rows_last_document
    (set_iter : gset string → list string) (py_str : pyval → string)
    (self : Comparator) (row : TabularComparisonRow) :
  row ∈ compare_all_architectures_tabular set_iter py_str self →
  row = _create_comparison_row set_iter py_str self row.(architecture_id)
          (spec_last_architecture self.(baseline_data) row.(architecture_id))
          (spec_last_architecture self.(enhanced_data) row.(architecture_id)).
Proof.
  rewrite compare_all_fmap. intros (arch_id & -> & _)%list_elem_of_fmap.
  by rewrite create_comparison_row_id, !index_architectures_last.
Qed.

(** X4 on a baseline set that lists [a1] twice. *)
Lemma compare_all_rows_last_document_witness :
  row_size_two
  = _create_comparison_row elements (fun _ => "")
      (comparator_of [arch_size_one; arch_size_two] [arch_size_two])
      row_size_two.(architecture_id)
      (spec_last_architecture
         (comparator_of [arch_size_one; arch_size_two]
            [arch_size_two]).(baseline_data)
         row_size_two.(architecture_id))
      (spec_last_architecture
         (comparator_of [arch_size_one; arch_size_two]
            [arch_size_two]).(enhanced_data)
         row_size_two.(architecture_id)).
Proof.
  apply (compare_all_rows_last_document elements (fun _ => "")
           (comparator_of [arch_size_one; arch_size_two] [arch_size_two])
           row_size_two).
  refine (bool_decide_unpack _ _). by vm_compute.
Defined.

(** ** The components level *)

Lemma flatten_components_dom (structure : Structure) :
  dom (flatten_components structure) = spec_component_key_set structure.
Proof.
  unfold flatten_components, spec_component_key_set, spec_component_keys,
    Dict.items.
  assert (∀ (l : Dict.t ServiceEntry) (acc : gmap string ComponentEntry),
    dom (foldl (fun comps '(service_name, service_data) =>
           foldl (fun comps '(comp_name, comp_data) =>
                    <[comp_key_of service_name comp_name := comp_data]> comps)
                 comps service_data.(components)) acc l)
    =@{gset string} dom acc ∪ list_to_set
        (l ≫= fun '(service_name, service_data) =>
           (fun entry => comp_key_of service_name entry.1)
             <$> service_data.(components))) as H.
  { induction l as [|[sn sd] l IH]; intros acc; simpl; [set_solver|].
    rewrite IH, list_to_set_app_L.
    assert (∀ (items : Dict.t ComponentEntry)
              (acc' : gmap string ComponentEntry),
      dom (foldl (fun comps '(comp_name, comp_data) =>
                    <[comp_key_of sn comp_name := comp_data]> comps)
                 acc' items)
      =@{gset string} dom acc' ∪ list_to_set
          ((fun entry => comp_key_of sn entry.1) <$> items)) as Hin.
    { induction items as [|[cn cd] items IH']; intros acc'; simpl;
        [set_solver|].
      rewrite IH', dom_insert_L. set_solver. }
    rewrite Hin. set_solver. }
  rewrite H, dom_empty_L. set_solver.
Qed.

Lemma compare_key_sets_text_iff (set_iter : gset string → list string)
    (B E : gset string) :
  (compare_key_sets set_iter B E).(same) = true
  ↔ (compare_key_sets set_iter B E).(differences) = "No differences".
Proof.
  unfold compare_key_sets. simpl.
  destruct (bool_decide (B = E)) eqn:Hs; simpl; [done|].
  apply bool_decide_eq_false in Hs.
  split; [done|]. rewrite !set_truthy_decide.
  destruct (decide (B ∖ E = ∅)) as [H1|H1],
           (decide (E ∖ B = ∅)) as [H2|H2]; simpl.
  - by destruct Hs; apply difference_both_empty.
  - unfold differences_text, PyStr.join. simpl. discriminate.
  - unfold differences_text, PyStr.join. simpl. discriminate.
  - unfold differences_text, PyStr.join. simpl. discriminate.
Qed.

(** X5: at the services level and at the components level the text is
    ["No differences"] exactly when [same] is true: a difference of key
    sets is always spelled out. *)
Theorem key_levels_text_iff_same (set_iter : gset string → list string)
    (b e : Structure) :
  ((_compare_services_level set_iter b e).(same) = true
   ↔ (_compare_services_level set_iter b e).(differences)
     = "No differences")
  ∧ ((_compare_components_level set_iter b e).(same) = true
     ↔ (_compare_components_level set_iter b e).(differences)
       = "No differences").
Proof. split; apply compare_key_sets_text_iff. Qed.

Section ComponentsLevel.

Variable set_iter : gset string → list string.
Hypothesis set_iter_perm : ∀ X, set_iter X ≡ₚ elements X.

(** X6: the components level compares the two sets of
    ["service::component"] keys and nothing else: [same] is their
    equality, and the text is ["No differences"] or lists the sorted
    baseline-only and enhanced-only keys in the format of the services
    level. *)
Theorem compare_components_level_spec (b e : Structure) :
  _compare_components_level set_iter b e
  = {| same := bool_decide (spec_component_key_set b
                            = spec_component_key_set e);
       differences := spec_key_set_text (spec_component_key_set b)
                        (spec_component_key_set e) |}.
Proof.
  unfold _compare_components_level.
  rewrite (compare_key_sets_spec set_iter set_iter_perm).
  by rewrite !flatten_components_dom.
Qed.

End ComponentsLevel.

(** X6 on [structure_xy] and [structure_yz]. *)
Lemma compare_components_level_spec_witness :
  _compare_components_level elements structure_xy structure_yz
  = {| same := false;
       differences := "Baseline only: db::c1_x; Enhanced only: db::c1_z" |}.
Proof.
  rewrite (compare_components_level_spec elements
             (fun X => reflexivity (elements X))).
  by vm_compute.
Defined.

(** ** Comparing a document with itself, and swapping the sides *)

(** X7: comparing an architecture document with itself gives a row with
    the four flags 1 and the four texts ["No differences"], whatever the
    reasoning records and the order in which sets are visited. *)
Theorem compare_with_itself (set_iter : gset string → list string)
    (py_str : pyval → string) (self : Comparator) (arch_id : string)
    (arch : Raw.Architecture) :
  spec_identical_row
    (_create_comparison_row set_iter py_str self arch_id
       (Some arch) (Some arch)).
Proof.
  unfold spec_identical_row, _create_comparison_row,
    _create_comparison_row_logged, bind, call, ret. simpl.
  unfold compare_key_sets. simpl.
  rewrite !bool_decide_eq_true_2 by done. done.
Qed.

Lemma bool_decide_eq_sym {A : Type} `{EqDecision A} (x y : A) :
  bool_decide (x = y) = bool_decide (y = x).
Proof. apply bool_decide_ext. split; congruence. Qed.

(** X8: the four flags do not depend on which document is called the
    baseline: swapping the two sides (present or absent) leaves every
    flag unchanged. *)
Theorem same_flags_symmetric (set_iter set_iter' : gset string → list string)
    (py_str py_str' : pyval → string) (self self' : Comparator)
    (arch_id : string) (x y : option Raw.Architecture) :
  let r := _create_comparison_row set_iter py_str self arch_id x y in
  let r' := _create_comparison_row set_iter' py_str' self' arch_id y x in
  r.(services_same) = r'.(services_same)
  ∧ r.(components_same) = r'.(components_same)
  ∧ r.(attributes_same) = r'.(attributes_same)
  ∧ r.(configurations_same) = r'.(configurations_same).
Proof.
  destruct x as [a|], y as [b|]; try done.
  unfold _create_comparison_row, _create_comparison_row_logged,
    bind, call, ret. simpl.
  unfold compare_key_sets. simpl.
  split_and!; by rewrite bool_decide_eq_sym.
Qed.

Section SameDocuments.

Variable set_iter : gset string → list string.
Variable py_str : pyval → string.
Hypothesis set_iter_perm : ∀ X, set_iter X ≡ₚ elements X.

(** X9: a comparator whose baseline and enhanced document sets are the
    same produces only rows with the four flags 1 and the four texts
    ["No differences"]. *)
Theorem compare_same_documents (self : Comparator) :
  self.(baseline_data) = self.(enhanced_data) →
  Forall spec_identical_row
    (compare_all_architectures_tabular set_iter py_str self).
Proof.
  intros Hd. rewrite compare_all_fmap, Hd, (sorted_set_iter _ set_iter_perm).
  apply Forall_fmap, Forall_forall. intros arch_id Hid.
  rewrite spec_sorted_names_elements, elem_of_elements in Hid.
  assert (is_Some (index_architectures (enhanced_data self) !! arch_id))
    as [arch Harch] by (apply elem_of_dom; set_solver).
  simpl. rewrite Harch. apply compare_with_itself.
Qed.

End SameDocuments.

(** X9 on a comparator with the documents [arch_size_one] and
    [arch_two_keys_before] on both sides. *)
Lemma compare_same_documents_witness :
  Forall spec_identical_row
    (compare_all_architectures_tabular elements (fun _ => "")
       (comparator_of [arch_size_one; arch_two_keys_before]
          [arch_size_one; arch_two_keys_before])).
Proof.
  apply (compare_same_documents elements (fun _ => "")
           (fun X => reflexivity (elements X))).
  reflexivity.
Defined.

(** ** The configurations level *)

Lemma attribute_configs_lookup (attrs : list Raw.Attribute) (n : string) :
  attribute_configs attrs !! n = spec_attribute_config attrs n.
Proof.
  unfold attribute_configs, spec_attribute_config.
  rewrite fold_insert_lookup, lookup_empty. by destruct (last _).
Qed.

Lemma attribute_configs_dom (attrs : list Raw.Attribute) :
  dom (attribute_configs attrs) = attribute_names attrs.
Proof.
  apply set_eq. intros n.
  rewrite elem_of_dom, attribute_configs_lookup.
  unfold spec_attribute_config, attribute_names.
  rewrite fmap_is_Some, last_is_Some, elem_of_list_to_set, list_elem_of_fmap.
  split.
  - intros Hne. destruct (filter _ attrs) as [|a l] eqn:Hf; [done|].
    assert (a ∈ filter (fun attr => attribute_name attr = n) attrs) as Ha
      by (rewrite Hf; by left).
    apply list_elem_of_filter in Ha as [Hn Ha]. eauto.
  - intros (a & -> & Ha) Hnil.
    assert (a ∈ filter (fun attr => attribute_name attr = attribute_name a)
                       attrs) as Hin by by apply list_elem_of_filter.
    rewrite Hnil in Hin. by apply elem_of_nil in Hin.
Qed.

Lemma config_of_eq_iff (cb ce : ComponentEntry) :
  config_of cb = config_of ce ↔ spec_same_configuration cb ce.
Proof.
  unfold config_of, spec_same_configuration. split.
  - intros [= Hi Hs Ha]. split_and!; [done..|].
    intros n. by rewrite <- !attribute_configs_lookup, Ha.
  - intros (Hi & Hs & Ha). rewrite Hi, Hs. f_equal.
    apply map_eq. intros n. by rewrite !attribute_configs_lookup.
Qed.

(** X10: the configurations level returns [same = True] exactly when
    every component key is absent from both structures or present in
    both with the same instance count, the same sort specification and,
    for every attribute codename, the same values, constraint and unit
    (those of the last attribute of that codename). *)
Theorem compare_configurations_level_same
    (set_iter : gset string → list string) (b e : Structure) :
  (_compare_configurations_level set_iter b e).(same) = true
  ↔ ∀ comp_key : string,
      option_Forall2 spec_same_configuration
        (flatten_components b !! comp_key)
        (flatten_components e !! comp_key).
Proof.
  unfold _compare_configurations_level. simpl.
  rewrite bool_decide_eq_true, !get_all_configurations_flatten, map_eq_iff.
  apply forall_proper. intros k. rewrite !lookup_fmap.
  destruct (flatten_components b !! k) as [cb|],
           (flatten_components e !! k) as [ce|]; simpl.
  - split.
    + intros H. constructor. apply config_of_eq_iff. congruence.
    + inversion 1; subst. f_equal. by apply config_of_eq_iff.
  - split; [done | inversion 1].
  - split; [done | inversion 1].
  - split; [constructor | done].
Qed.

Lemma configurations_equal_attributes_equal (b e : Structure) :
  _get_all_configurations b = _get_all_configurations e →
  _get_all_attributes b = _get_all_attributes e.
Proof.
  rewrite !get_all_configurations_flatten, !get_all_attributes_flatten.
  intros H. apply map_eq. intros k.
  apply (f_equal (fun m => m !! k)) in H. rewrite !lookup_fmap in *.
  destruct (flatten_components b !! k) as [cb|],
           (flatten_components e !! k) as [ce|]; simpl in *; try done.
  assert (config_of cb = config_of ce) as Hc by congruence.
  f_equal. apply attribute_marks_eq_iff.
  rewrite <- !attribute_configs_dom.
  apply (f_equal Cfg.attributes) in Hc. simpl in Hc. by rewrite Hc.
Qed.

Lemma attributes_equal_components_equal (b e : Structure) :
  _get_all_attributes b = _get_all_attributes e →
  dom (flatten_components b) =@{gset string} dom (flatten_components e).
Proof.
  rewrite !get_all_attributes_flatten. intros H.
  apply (f_equal (dom : _ → gset string)) in H.
  by rewrite !dom_fmap_L in H.
Qed.

(** X11: in every row, [configurations_same = 1] implies
    [attributes_same = 1], and [attributes_same = 1] implies
    [components_same = 1]: each of these levels refines the one
    before. *)
Theorem flags_refine (set_iter : gset string → list string)
    (py_str : pyval → string) (self : Comparator) (arch_id : string)
    (x y : option Raw.Architecture) :
  let row := _create_comparison_row set_iter py_str self arch_id x y in
  (row.(configurations_same) = 1%Z → row.(attributes_same) = 1%Z)
  ∧ (row.(attributes_same) = 1%Z → row.(components_same) = 1%Z).
Proof.
  destruct x as [a|], y as [b|]; try done.
  unfold _create_comparison_row, _create_comparison_row_logged,
    bind, call, ret. simpl. unfold compare_key_sets. simpl. split.
  - destruct (bool_decide (_get_all_configurations _ = _)) eqn:Hc; [|done].
    intros _. apply bool_decide_eq_true in Hc.
    by rewrite bool_decide_eq_true_2
      by by apply configurations_equal_attributes_equal.
  - destruct (bool_decide (_get_all_attributes _ = _)) eqn:Ha; [|done].
    intros _. apply bool_decide_eq_true in Ha.
    by rewrite bool_decide_eq_true_2
      by by apply attributes_equal_components_equal.
Qed.

(** X11 on the row of [arch_size_two] against itself. *)
Lemma flags_refine_witness :
  row_size_two.(attributes_same) = 1%Z
  ∧ row_size_two.(components_same) = 1%Z.
Proof.
  destruct (flags_refine elements (fun _ => "")
              (comparator_of [arch_size_one; arch_size_two] [arch_size_two])
              "a1" (Some arch_size_two) (Some arch_size_two)) as [H1 H2].
  assert (row_size_two.(attributes_same) = 1%Z) as Ha
    by (apply H1; by vm_compute).
  split; [done|]. by apply H2.
Defined.

(** ** The text of the attributes level *)

Lemma last_char_app (s t : string) :
  last_char (s +:+ t)
  = match last_char t with Some d => Some d | None => last_char s end.
Proof.
  induction s as [|c s IH].
  - change ("" +:+ t) with t. by destruct (last_char t).
  - change (String c s +:+ t) with (String c (s +:+ t)). simpl.
    rewrite IH. by destruct (last_char t), (last_char s).
Qed.

Lemma join_last_char (sep : string) (l : list string) (c : ascii) :
  l ≠ [] → Forall (fun s => last_char s = Some c) l →
  last_char (PyStr.join sep l) = Some c.
Proof.
  unfold PyStr.join. induction l as [|x l IH]; [done|].
  intros _ [Hx Hl]%Forall_cons. destruct l as [|y l]; [done|].
  change (String.concat sep (x :: y :: l))
    with (x +:+ sep +:+ String.concat sep (y :: l)).
  rewrite !last_char_app, IH by done. done.
Qed.

Lemma attribute_differences_at_paren (set_iter : gset string → list string)
    (A_b A_e : gmap string (gmap string AttrMark)) (k : string) :
  Forall (fun s => last_char s = Some ")"%char)
         (attribute_differences_at set_iter A_b A_e k).
Proof.
  unfold attribute_differences_at.
  destruct (bool_decide _); [|constructor].
  destruct (bool_decide _); [|constructor].
  destruct (_ || _); repeat constructor.
  by rewrite !last_char_app.
Qed.

Lemma get_all_attributes_names (structure : Structure) (k : string) :
  dom (default ∅ (_get_all_attributes structure !! k))
  = spec_attribute_names_or_empty structure k.
Proof.
  unfold spec_attribute_names_or_empty, spec_attribute_names.
  rewrite get_all_attributes_flatten, lookup_fmap.
  destruct (flatten_components structure !! k); simpl.
  - apply attribute_marks_dom.
  - apply dom_empty_L.
Qed.

Lemma get_all_attributes_default_eq (b e : Structure) (k : string) :
  spec_attribute_names_or_empty b k = spec_attribute_names_or_empty e k →
  default ∅ (_get_all_attributes b !! k)
  = default ∅ (_get_all_attributes e !! k).
Proof.
  unfold spec_attribute_names_or_empty, spec_attribute_names.
  rewrite !get_all_attributes_flatten, !lookup_fmap.
  assert (attribute_marks [] = ∅) as Hnil by done.
  assert (attribute_names [] = ∅) as Hnames by done.
  destruct (flatten_components b !! k) as [cb|],
           (flatten_components e !! k) as [ce|]; simpl; intros H.
  - by apply attribute_marks_eq_iff.
  - rewrite <- Hnil. apply attribute_marks_eq_iff. by rewrite Hnames.
  - rewrite <- Hnil. apply attribute_marks_eq_iff. by rewrite Hnames.
  - done.
Qed.

Section AttributesText.

Variable set_iter : gset string → list string.
Hypothesis set_iter_perm : ∀ X, set_iter X ≡ₚ elements X.

(** X12: the text of the attributes level is ["No differences"] exactly
    when every component key has the same set of attribute codenames on
    both sides, a key absent from a side counting as a key without
    attributes.  (The [same] flag is stricter: it also requires the key
    sets to agree.) *)
Theorem compare_attributes_level_text (b e : Structure) :
  (_compare_attributes_level set_iter b e).(differences) = "No differences"
  ↔ ∀ comp_key : string,
      spec_attribute_names_or_empty b comp_key
      = spec_attribute_names_or_empty e comp_key.
Proof.
  unfold _compare_attributes_level. simpl.
  set (A_b := _get_all_attributes b). set (A_e := _get_all_attributes e).
  split.
  - intros Htext k.
    destruct (decide (spec_attribute_names_or_empty b k
                      = spec_attribute_names_or_empty e k)) as [|Hne];
      [done|exfalso].
    rewrite <- !get_all_attributes_names in Hne. fold A_b A_e in Hne.
    assert (A_b ≠ A_e) as Hmaps by (intros Heq; by rewrite Heq in Hne).
    rewrite bool_decide_eq_false_2 in Htext by done. simpl in Htext.
    assert (k ∈ set_iter (dom A_b ∪ dom A_e)) as Hk.
    { rewrite set_iter_perm, elem_of_elements, elem_of_union, !elem_of_dom.
      destruct (A_b !! k) eqn:Hb; [by left; eauto|].
      destruct (A_e !! k) eqn:He; [by right; eauto|]. done. }
    assert (attribute_differences_at set_iter A_b A_e k ≠ []) as Hentry.
    { unfold attribute_differences_at.
      rewrite bool_decide_eq_true_2 by (intros Heq; by rewrite Heq in Hne).
      rewrite bool_decide_eq_true_2 by done.
      rewrite !set_truthy_decide.
      destruct (decide (_ ∖ _ = ∅)) as [H1|H1],
               (decide (_ ∖ _ = ∅)) as [H2|H2]; simpl; try done.
      by destruct Hne; apply difference_both_empty. }
    rewrite foldl_app_bind in Htext. simpl in Htext.
    set (l := set_iter _ ≫= _) in Htext.
    assert (l ≠ []) as Hl.
    { intros Hnil.
      destruct (attribute_differences_at set_iter A_b A_e k) as [|x xs] eqn:Hx;
        [done|].
      assert (x ∈ l) as Hin.
      { apply list_elem_of_bind. exists k. split; [|done].
        rewrite Hx. by left. }
      rewrite Hnil in Hin. by apply elem_of_nil in Hin. }
    assert (Forall (fun s => last_char s = Some ")"%char) l) as Hparen.
    { apply Forall_bind, Forall_forall. intros k' _.
      apply attribute_differences_at_paren. }
    pose proof (join_last_char "; " l _ Hl Hparen) as Hlast.
    unfold differences_text in Htext. clearbody l.
    destruct l as [|x l']; [done|].
    change (list_truthy (x :: l')) with true in Htext. cbv iota in Htext.
    rewrite Htext in Hlast. by vm_compute in Hlast.
  - intros Hnames. destruct (bool_decide (A_b = A_e)); [done|]. simpl.
    rewrite foldl_app_nil; [done|].
    intros k. apply attribute_differences_at_equal.
    by apply get_all_attributes_default_eq.
Qed.

End AttributesText.

(** X12 on [arch_with_bare] and [arch_without_bare]. *)
Lemma compare_attributes_level_text_witness :
  (_compare_attributes_level elements
     (_extract_architecture_structure (Some arch_with_bare))
     (_extract_architecture_structure (Some arch_without_bare))).(differences)
  = "No differences".
Proof.
  apply (compare_attributes_level_text elements
           (fun X => reflexivity (elements X))).
  intros k. rewrite <- !get_all_attributes_names.
  change (_get_all_attributes
            (_extract_architecture_structure (Some arch_with_bare)))
    with (<[ "db::c1_z" := ∅ ]>
            (_get_all_attributes
               (_extract_architecture_structure (Some arch_without_bare)))).
  f_equal. apply absent_as_empty. by vm_compute.
Defined.

(** ** Reasoning description without reasoning records *)

Lemma foldl_fixed {A B : Type} (f : A → B → A) (a : A) (l : list B) :
  (∀ x, x ∈ l → f a x = a) → foldl f a l = a.
Proof.
  induction l as [|x l IH]; intros H; [done|]. simpl.
  rewrite H by by left. apply IH. intros y Hy. apply H. by right.
Qed.

Lemma describe_service_no_record (py_str : pyval → string)
    (self : Comparator) (B E : gset string) (d : list string) (s : string) :
  self.(baseline_reasoning_lookup) !! s = None →
  self.(enhanced_reasoning_lookup) !! s = None →
  describe_service py_str self B E d s = d.
Proof.
  intros Hb He. unfold describe_service. rewrite Hb, He. simpl.
  assert (bool_decide (("" : string) ≠ "") = false) as H1 by done.
  assert (bool_decide (([] : list pyval) ≠ []) = false) as H2 by done.
  rewrite ?H1, ?H2. unfold labelled_insight. simpl.
  repeat case_match; by rewrite ?app_nil_r.
Qed.

Lemma describe_common_service_no_record (self : Comparator)
    (d : list string) (s : string) :
  self.(baseline_reasoning_lookup) !! s = None →
  self.(enhanced_reasoning_lookup) !! s = None →
  describe_common_service self d s = d.
Proof.
  intros Hb He. unfold describe_common_service. by rewrite Hb, He.
Qed.

Section NoRecords.

Variable set_iter : gset string → list string.
Variable py_str : pyval → string.
Hypothesis set_iter_perm : ∀ X, set_iter X ≡ₚ elements X.

(** X13: when neither reasoning lookup has a record for any service of
    the two structures, the reasoning description is the literal
    ["No specific reasoning insights available"]. *)
Theorem get_reasoning_description_no_records (self : Comparator)
    (b e : Structure) :
  (∀ s : string,
     s ∈ Dict.key_set b.(services) ∪ Dict.key_set e.(services) →
     self.(baseline_reasoning_lookup) !! s = None
     ∧ self.(enhanced_reasoning_lookup) !! s = None) →
  _get_reasoning_description set_iter py_str self b e
  = "No specific reasoning insights available".
Proof.
  intros Hnone. unfold _get_reasoning_description. cbv zeta.
  rewrite foldl_fixed; last first.
  { intros s Hs. rewrite set_iter_perm, elem_of_elements in Hs.
    destruct (Hnone s Hs). by apply describe_service_no_record. }
  simpl. rewrite foldl_fixed; [done|].
  intros s Hs. apply subseteq_take in Hs.
  rewrite set_iter_perm, elem_of_elements in Hs.
  destruct (Hnone s) as [Hb He]; [set_solver|].
  by apply describe_common_service_no_record.
Qed.

End NoRecords.

(** X13 on [comparator_cache_reasoning], whose only reasoning record is
    for a service that neither architecture has. *)
Lemma get_reasoning_description_no_records_witness :
  _get_reasoning_description elements (fun _ => "")
    comparator_cache_reasoning
    (_extract_architecture_structure (Some arch_size_one))
    (_extract_architecture_structure (Some arch_size_two))
  = "No specific reasoning insights available".
Proof.
  apply (get_reasoning_description_no_records elements (fun _ => "")
           (fun X => reflexivity (elements X))).
  intros s Hs.
  assert (Dict.key_set
            (_extract_architecture_structure (Some arch_size_one)).(services)
          ∪ Dict.key_set
              (_extract_architecture_structure (Some arch_size_two)).(services)
          = {["db"]}) as Hset by (by vm_compute).
  rewrite Hset in Hs. apply elem_of_singleton in Hs as ->.
  split; by vm_compute.
Defined.

(** ** Services and component keys of a normalized document *)

Lemma filter_nonempty_iff {A : Type} (P : A → Prop) `{∀ x, Decision (P x)}
    (l : list A) :
  filter P l ≠ [] ↔ ∃ x, x ∈ l ∧ P x.
Proof.
  split.
  - intros Hne. destruct (filter P l) as [|a l'] eqn:Hf; [done|].
    assert (a ∈ filter P l) as Ha by (rewrite Hf; by left).
    apply list_elem_of_filter in Ha as [HP Ha]. eauto.
  - intros (a & Ha & HP) Hnil.
    assert (a ∈ filter P l) as Hin by by apply list_elem_of_filter.
    rewrite Hnil in Hin. by apply elem_of_nil in Hin.
Qed.

Lemma key_set_dom {V : Type} (d : Dict.t V) :
  Dict.key_set d = dom (Dict.to_map d).
Proof.
  unfold Dict.key_set, Dict.keys, Dict.to_map.
  by rewrite dom_list_to_map_L.
Qed.

Lemma normalized_service_names (arch : Raw.Architecture) :
  Dict.key_set (_extract_architecture_structure (Some arch)).(services)
  = raw_service_names arch.
Proof.
  simpl. fold (raw_components arch). unfold raw_service_names.
  apply set_eq. intros s.
  rewrite key_set_dom,
    <- (dom_fmap_L view_of (Dict.to_map (foldl add_component [] _))).
  fold (services_view (foldl add_component [] (raw_components arch))).
  rewrite elem_of_dom, <- (fmap_is_Some view_codename).
  destruct (normalize_view_lookup (raw_components arch) s) as (-> & _ & _).
  rewrite fmap_is_Some, head_is_Some. unfold components_of_service.
  rewrite filter_nonempty_iff, elem_of_list_to_set, list_elem_of_fmap.
  naive_solver.
Qed.

Lemma mem_cons {V : Type} (s k : string) (v : V) (d : Dict.t V) :
  Dict.mem s ((k, v) :: d)
  = if decide (s = k) then true else Dict.mem s d.
Proof. unfold Dict.mem. simpl. by destruct (decide (s = k)). Qed.

Lemma component_key_set_cons (s : string) (sd : ServiceEntry)
    (d : Dict.t ServiceEntry) :
  spec_component_key_set {| services := (s, sd) :: d |}
  = list_to_set ((fun entry => comp_key_of s entry.1) <$> sd.(components))
    ∪ spec_component_key_set {| services := d |}.
Proof.
  unfold spec_component_key_set, spec_component_keys. simpl.
  by rewrite list_to_set_app_L.
Qed.

Lemma component_key_set_fresh (s : string) (select : list pyval)
    (d : Dict.t ServiceEntry) :
  Dict.mem s d = false →
  spec_component_key_set
    {| services := Dict.set s {| service_codename := s;
                                 select_attributes := select;
                                 components := [] |} d |}
  = spec_component_key_set {| services := d |}.
Proof.
  induction d as [|[k v] d IH]; intros Hm; simpl.
  - rewrite component_key_set_cons. simpl. set_solver.
  - rewrite mem_cons in Hm. destruct (decide (s = k)); [done|].
    rewrite !component_key_set_cons, IH by done. done.
Qed.

Lemma mem_set {V : Type} (s : string) (v : V) (d : Dict.t V) :
  Dict.mem s (Dict.set s v d) = true.
Proof. apply to_map_mem. rewrite to_map_set, lookup_insert_eq. eauto. Qed.

Lemma mem_store (s k : string) (e : ComponentEntry)
    (d : Dict.t ServiceEntry) :
  Dict.mem s d = true → Dict.mem s (store_component s k e d) = true.
Proof.
  rewrite !to_map_mem. unfold store_component.
  rewrite to_map_alter, lookup_alter_eq, fmap_is_Some. done.
Qed.

Lemma entry_keys_set (s k : string) (e : ComponentEntry)
    (comps : Dict.t ComponentEntry) :
  list_to_set ((fun entry => comp_key_of s entry.1) <$> Dict.set k e comps)
  =@{gset string}
  {[comp_key_of s k]}
  ∪ list_to_set ((fun entry => comp_key_of s entry.1) <$> comps).
Proof.
  induction comps as [|[k' e'] comps IH]; [simpl; set_solver|].
  cbn [Dict.set]. destruct (decide (k = k')) as [->|Hne];
    rewrite !fmap_cons, !list_to_set_cons; cbn [fst];
    [set_solver | rewrite IH; set_solver].
Qed.

Lemma component_key_set_store (s k : string) (e : ComponentEntry)
    (d : Dict.t ServiceEntry) :
  Dict.mem s d = true →
  spec_component_key_set {| services := store_component s k e d |}
  = {[comp_key_of s k]} ∪ spec_component_key_set {| services := d |}.
Proof.
  unfold store_component.
  induction d as [|[k' v] d IH]; intros Hm; [done|]. simpl.
  rewrite mem_cons in Hm. destruct (decide (s = k')) as [->|Hne].
  - rewrite !component_key_set_cons. cbn [components].
    rewrite entry_keys_set. set_solver.
  - rewrite !component_key_set_cons, IH by done. set_solver.
Qed.

Lemma component_key_set_store_all (c : Raw.Component) (s : string)
    (parts : list Raw.ServiceComponent) (d : Dict.t ServiceEntry) :
  Dict.mem s d = true →
  spec_component_key_set
    {| services :=
         foldl (fun services service_component =>
                  store_component s (raw_entry c service_component).1
                    (raw_entry c service_component).2 services)
               d parts |}
  = spec_component_key_set {| services := d |}
    ∪ list_to_set
        ((fun entry => comp_key_of s entry.1) <$> (raw_entry c <$> parts)).
Proof.
  revert d. induction parts as [|p parts IH]; intros d Hm; simpl.
  - set_solver.
  - rewrite IH by by apply mem_store.
    rewrite component_key_set_store by done. set_solver.
Qed.

Lemma component_key_set_add (d : Dict.t ServiceEntry) (c : Raw.Component) :
  spec_component_key_set {| services := add_component d c |}
  = spec_component_key_set {| services := d |}
    ∪ list_to_set (raw_component_keys c).
Proof.
  unfold add_component, raw_component_keys.
  change (default "Unknown"
            (Raw.service_codename
               (default Raw.empty_service_space
                  (Raw.service_search_space c))))
    with (raw_service_name c).
  set (d1 := if negb (Dict.mem (raw_service_name c) d) then _ else d).
  assert (Dict.mem (raw_service_name c) d1 = true
          ∧ spec_component_key_set {| services := d1 |}
            = spec_component_key_set {| services := d |}) as [Hm Hk].
  { unfold d1. destruct (Dict.mem (raw_service_name c) d) eqn:Hmem; simpl.
    - done.
    - split; [apply mem_set | by apply component_key_set_fresh]. }
  rewrite <- Hk.
  apply (component_key_set_store_all c (raw_service_name c) _ d1 Hm).
Qed.

Lemma normalized_component_keys (arch : Raw.Architecture) :
  spec_component_key_set (_extract_architecture_structure (Some arch))
  = raw_component_key_set arch.
Proof.
  simpl. fold (raw_components arch). unfold raw_component_key_set.
  induction (raw_components arch) as [|c l IH] using rev_ind; [done|].
  rewrite foldl_snoc, component_key_set_add, IH, bind_app.
  rewrite list_to_set_app_L. simpl. by rewrite app_nil_r.
Qed.

Lemma flag_one_iff (P : Prop) `{Decision P} :
  (if bool_decide P then 1%Z else 0%Z) = 1%Z ↔ P.
Proof. case_bool_decide; naive_solver. Qed.

Lemma create_comparison_row_key_flags (set_iter : gset string → list string)
    (py_str : pyval → string) (self : Comparator) (arch_id : string)
    (baseline_arch enhanced_arch : Raw.Architecture) :
  let row := _create_comparison_row set_iter py_str self arch_id
               (Some baseline_arch) (Some enhanced_arch) in
  (row.(services_same) = 1%Z
   ↔ raw_service_names baseline_arch = raw_service_names enhanced_arch)
  ∧ (row.(components_same) = 1%Z
     ↔ raw_component_key_set baseline_arch
       = raw_component_key_set enhanced_arch).
Proof.
  intros row. unfold row, _create_comparison_row,
    _create_comparison_row_logged, bind, call, ret. simpl.
  unfold compare_key_sets. simpl. rewrite !flag_one_iff.
  fold (raw_components baseline_arch) (raw_components enhanced_arch).
  pose proof (normalized_service_names baseline_arch) as Hb.
  pose proof (normalized_service_names enhanced_arch) as He.
  pose proof (normalized_component_keys baseline_arch) as Kb.
  pose proof (normalized_component_keys enhanced_arch) as Ke.
  simpl in Hb, He, Kb, Ke.
  fold (raw_components baseline_arch) in Hb, Kb.
  fold (raw_components enhanced_arch) in He, Ke.
  rewrite Hb, He, !flatten_components_dom, Kb, Ke. done.
Qed.

(** X14: normalization loses no service and no component key: the
    services of the normalized architecture are the service codenames
    of the document, and its ["service::component"] keys are those the
    document's service components give.  Hence, for two documents that
    are both present, [services_same] is 1 exactly when the documents
    name the same set of services, and [components_same] is 1 exactly
    when they give the same set of component keys. *)
Theorem key_flags_raw (set_iter : gset string → list string)
    (py_str : pyval → string) (self : Comparator) (arch_id : string)
    (baseline_arch enhanced_arch : Raw.Architecture) :
  let row := _create_comparison_row set_iter py_str self arch_id
               (Some baseline_arch) (Some enhanced_arch) in
  Dict.key_set
    (_extract_architecture_structure (Some baseline_arch)).(services)
  = raw_service_names baseline_arch
  ∧ spec_component_key_set
      (_extract_architecture_structure (Some baseline_arch))
    = raw_component_key_set baseline_arch
  ∧ (row.(services_same) = 1%Z
     ↔ raw_service_names baseline_arch = raw_service_names enhanced_arch)
  ∧ (row.(components_same) = 1%Z
     ↔ raw_component_key_set baseline_arch
       = raw_component_key_set enhanced_arch).
Proof.
  intros row. split; [apply normalized_service_names|].
  split; [apply normalized_component_keys|].
  apply create_comparison_row_key_flags.
Qed.

(** ** Rewriting the contents of service components *)

Lemma retouch_service_name (f : Raw.ServiceComponent → Raw.ServiceComponent)
    (c : Raw.Component) :
  raw_service_name (retouch_component f c) = raw_service_name c.
Proof.
  unfold raw_service_name, raw_service_space, retouch_component. simpl.
  by destruct (Raw.service_search_space c).
Qed.

Lemma retouch_component_keys
    (f : Raw.ServiceComponent → Raw.ServiceComponent) (c : Raw.Component) :
  (∀ sc, (f sc).(Raw.service_component_codename)
         = sc.(Raw.service_component_codename)) →
  raw_component_keys (retouch_component f c) = raw_component_keys c.
Proof.
  intros Hf. unfold raw_component_keys. rewrite retouch_service_name.
  unfold raw_entries, raw_service_space, retouch_component. simpl.
  destruct (Raw.service_search_space c) as [space|]; [|done]. simpl.
  destruct (Raw.service_components_search_spaces space) as [parts|]; [|done].
  simpl. rewrite <- !list_fmap_compose. apply list_fmap_ext.
  intros i sc _. unfold raw_entry. simpl. by rewrite Hf.
Qed.

Lemma retouch_raw_components
    (f : Raw.ServiceComponent → Raw.ServiceComponent)
    (arch : Raw.Architecture) :
  raw_components (retouch_architecture f arch)
  = retouch_component f <$> raw_components arch.
Proof.
  unfold raw_components, retouch_architecture. simpl.
  by destruct (Raw.components_search_space arch).
Qed.

Lemma create_comparison_row_key_texts
    (set_iter : gset string → list string) (py_str : pyval → string)
    (self : Comparator) (arch_id : string) (a b : Raw.Architecture) :
  let row := _create_comparison_row set_iter py_str self arch_id
               (Some a) (Some b) in
  (row.(services_same) = 1%Z → row.(services_differences) = "No differences")
  ∧ (row.(components_same) = 1%Z
     → row.(components_differences) = "No differences").
Proof.
  unfold _create_comparison_row, _create_comparison_row_logged,
    bind, call, ret. simpl. unfold compare_key_sets. simpl.
  split; by case_bool_decide.
Qed.

(** X15: the services level and the components level do not look inside
    service components: rewriting the attributes, instance counts and
    sort specifications of a document in any way that keeps the
    codenames leaves [services_same] and [components_same] at 1 with the
    text ["No differences"]. *)
Theorem key_levels_ignore_contents (set_iter : gset string → list string)
    (py_str : pyval → string) (self : Comparator) (arch_id : string)
    (f : Raw.ServiceComponent → Raw.ServiceComponent)
    (arch : Raw.Architecture) :
  (∀ sc, (f sc).(Raw.service_component_codename)
         = sc.(Raw.service_component_codename)) →
  let row := _create_comparison_row set_iter py_str self arch_id
               (Some arch) (Some (retouch_architecture f arch)) in
  row.(services_same) = 1%Z
  ∧ row.(components_same) = 1%Z
  ∧ row.(services_differences) = "No differences"
  ∧ row.(components_differences) = "No differences".
Proof.
  intros Hf row.
  destruct (create_comparison_row_key_flags set_iter py_str self arch_id
              arch (retouch_architecture f arch)) as [Hs Hc].
  fold row in Hs, Hc.
  assert (row.(services_same) = 1%Z) as Hs1.
  { apply Hs. unfold raw_service_names.
    rewrite retouch_raw_components, <- list_fmap_compose.
    f_equal. apply list_fmap_ext. intros i c _. simpl.
    by rewrite retouch_service_name. }
  assert (row.(components_same) = 1%Z) as Hc1.
  { apply Hc. unfold raw_component_key_set.
    rewrite retouch_raw_components, list_fmap_bind. f_equal.
    apply list_bind_ext; [|done]. intros c. simpl.
    by rewrite retouch_component_keys. }
  destruct (create_comparison_row_key_texts set_iter py_str self arch_id
              arch (retouch_architecture f arch)) as [Ht1 Ht2].
  fold row in Ht1, Ht2. split_and!; auto.
Qed.

(** X15 on [arch_two_keys_before] with every service component reset. *)
Lemma key_levels_ignore_contents_witness :
  let row := _create_comparison_row elements (fun _ => "")
               comparator_two_keys "a1" (Some arch_two_keys_before)
               (Some (retouch_architecture reset_service_component
                        arch_two_keys_before)) in
  row.(services_same) = 1%Z
  ∧ row.(components_same) = 1%Z
  ∧ row.(services_differences) = "No differences"
  ∧ row.(components_differences) = "No differences".
Proof.
  apply key_levels_ignore_contents. intros sc. reflexivity.
Defined.

(** ** Provenance of the stored entries *)

(** X16: every component entry of a normalized architecture comes from
    the document: it is the entry of a service component of a raw
    component of that service, it is stored under the composite key
    [component_id + "_" + service_component_codename] made of its own
    fields, and the service entry holding it carries the service's name. *)
Theorem normalized_entry_provenance (arch : Raw.Architecture)
    (s k : string) (v : ServiceView) (e : ComponentEntry) :
  structure_view (_extract_architecture_structure (Some arch)) !! s
  = Some v →
  v.(view_components) !! k = Some e →
  v.(view_codename) = s
  ∧ k = e.(component_id) +:+ "_" +:+ e.(service_component_codename)
  ∧ ∃ c : Raw.Component,
      c ∈ raw_components arch ∧ raw_service_name c = s
      ∧ (k, e) ∈ raw_entries c.
Proof.
  intros Hv He.
  destruct (normalize_view_lookup (raw_components arch) s) as (Hc & _ & Hk).
  unfold structure_view in Hv. simpl in Hv. fold (raw_components arch) in Hv.
  cbv zeta in Hc, Hk. rewrite Hv in Hc, Hk. specialize (Hk k).
  simpl in Hc, Hk. rewrite He in Hk.
  assert (view_codename v = s) as Hname.
  { destruct (head _); simpl in Hc; congruence. }
  unfold spec_last_entry in Hk.
  destruct (last _) as [[k' e']|] eqn:Hlast; simplify_eq/=.
  apply last_Some_elem_of, list_elem_of_filter in Hlast as [Hk' Hin].
  simpl in Hk'. subst k'.
  apply list_elem_of_bind in Hin as (c & Hentry & Hc'%components_of_service_elem).
  destruct Hc' as [Hcs Hcl].
  assert (k = e'.(component_id) +:+ "_" +:+ e'.(service_component_codename))
    as Hkey.
  { unfold raw_entries in Hentry.
    apply list_elem_of_fmap in Hentry as (sc & Heq & _).
    unfold raw_entry in Heq. by simplify_eq/=. }
  split_and!; [done..|]. eauto.
Qed.

(** X16 on the entry [db::c1_x] of [arch_size_one]. *)
Lemma normalized_entry_provenance_witness :
  view_size_one.(view_codename) = "db"
  ∧ "c1_x" = entry_size_one.(component_id) +:+ "_"
             +:+ entry_size_one.(service_component_codename)
  ∧ ∃ c : Raw.Component,
      c ∈ raw_components arch_size_one ∧ raw_service_name c = "db"
      ∧ ("c1_x", entry_size_one) ∈ raw_entries c.
Proof.
  apply (normalized_entry_provenance arch_size_one "db" "c1_x"
           view_size_one entry_size_one); by vm_compute.
Defined.

(** ** Strings: append, reverse, prefixes *)

Lemma append_cons (c : ascii) (s t : string) :
  String c s +:+ t = String c (s +:+ t).
Proof. reflexivity. Qed.

Lemma append_nil_r (s : string) : s +:+ "" = s.
Proof. induction s as [|c s IH]; [done|]. by rewrite append_cons, IH. Qed.

Lemma append_assoc (a b c : string) : (a +:+ b) +:+ c = a +:+ b +:+ c.
Proof.
  induction a as [|x a IH]; [done|]. by rewrite !append_cons, IH.
Qed.

Lemma rev_app_append (s acc : string) :
  String.rev_app s acc = String.rev s +:+ acc.
Proof.
  unfold String.rev. revert acc.
  induction s as [|c s IH]; intros acc; [done|]. simpl.
  rewrite (IH (String c acc)), (IH (String c "")), append_assoc. done.
Qed.

Lemma rev_cons (c : ascii) (s : string) :
  String.rev (String c s) = String.rev s +:+ String c "".
Proof. unfold String.rev at 1. simpl. apply rev_app_append. Qed.

Lemma rev_append (a b : string) :
  String.rev (a +:+ b) = String.rev b +:+ String.rev a.
Proof.
  induction a as [|c a IH].
  - change ("" +:+ b) with b. change (String.rev "") with "".
    by rewrite append_nil_r.
  - change (String c a +:+ b) with (String c (a +:+ b)).
    by rewrite !rev_cons, IH, append_assoc.
Qed.

Lemma rev_involutive (s : string) : String.rev (String.rev s) = s.
Proof.
  induction s as [|c s IH]; [done|].
  by rewrite rev_cons, rev_append, IH.
Qed.

Lemma prefix_append (p s : string) :
  String.prefix p s = true → ∃ rest, s = p +:+ rest.
Proof.
  revert s. induction p as [|c p IH]; intros s Hp.
  - by exists s.
  - destruct s as [|d s]; [done|]. simpl in Hp.
    destruct (ascii_dec c d) as [->|]; [|done].
    destruct (IH s Hp) as [rest ->]. by exists rest.
Qed.

Lemma take_append (n : nat) (s : string) :
  ∃ rest, s = PyStr.take n s +:+ rest.
Proof.
  unfold PyStr.take. revert s.
  induction n as [|n IH]; intros [|c s]; simpl; try by eexists.
  destruct (IH s) as [rest Hr]. exists rest.
  rewrite append_cons. by f_equal.
Qed.

Lemma take_all (n : nat) (s : string) :
  String.length s ≤ n → PyStr.take n s = s.
Proof.
  unfold PyStr.take. revert s.
  induction n as [|n IH]; intros [|c s] Hs; simpl in *; try done; try lia.
  rewrite IH; [done | lia].
Qed.

Lemma take_append_l (n : nat) (s t : string) :
  n ≤ String.length s → PyStr.take n (s +:+ t) = PyStr.take n s.
Proof.
  unfold PyStr.take. revert s.
  induction n as [|n IH]; intros [|c s] Hs; simpl in *; try done; try lia.
  - by destruct t.
  - rewrite IH; [done | lia].
Qed.

(** ** Splitting and joining *)

Lemma split_go_cons (sep : string) (c : ascii) (s : string) (skip : nat)
    (cur : string) :
  PyStr.split_go sep (String c s) skip cur
  = match skip with
    | S k => PyStr.split_go sep s k cur
    | O =>
        if String.prefix sep (String c s)
        then String.rev cur
             :: PyStr.split_go sep s (String.length sep - 1) ""
        else PyStr.split_go sep s 0 (String c cur)
    end.
Proof. reflexivity. Qed.

Lemma split_go_nonempty (sep s : string) (skip : nat) (cur : string) :
  PyStr.split_go sep s skip cur ≠ [].
Proof.
  revert skip cur. induction s as [|c s IH]; intros skip cur; [done|].
  rewrite split_go_cons. destruct skip; [|apply IH].
  destruct (String.prefix sep (String c s)); [done | apply IH].
Qed.

Lemma join_cons (sep x : string) (l : list string) :
  l ≠ [] → PyStr.join sep (x :: l) = x +:+ sep +:+ PyStr.join sep l.
Proof. by destruct l. Qed.

Lemma join_split_go (sep s : string) (skip : nat) (cur u rest : string) :
  sep ≠ "" → s = u +:+ rest → String.length u = skip →
  PyStr.join sep (PyStr.split_go sep s skip cur) = String.rev cur +:+ rest.
Proof.
  intros Hsep. revert skip cur u rest.
  induction s as [|c s IH]; intros skip cur u rest Hs Hu.
  - destruct u; [|done]. change ("" +:+ rest) with rest in Hs. subst rest.
    change (PyStr.join sep (PyStr.split_go sep "" skip cur))
      with (String.rev cur).
    by rewrite append_nil_r.
  - rewrite split_go_cons. destruct skip as [|k].
    + destruct u; [|done]. change ("" +:+ rest) with rest in Hs. subst rest.
      destruct (String.prefix sep (String c s)) eqn:Hp.
      * apply prefix_append in Hp as [rest' Hr].
        destruct sep as [|d sep']; [done|].
        change (String d sep' +:+ rest') with (String d (sep' +:+ rest')) in Hr.
        injection Hr as -> ->.
        rewrite join_cons by apply split_go_nonempty.
        rewrite (IH _ "" sep' rest'); [|done|simpl; lia].
        done.
      * rewrite (IH 0 (String c cur) "" s) by done.
        by rewrite rev_cons, append_assoc.
    + destruct u as [|d u]; [done|].
      change (String d u +:+ rest) with (String d (u +:+ rest)) in Hs.
      injection Hs as -> ->. simpl in Hu.
      apply (IH k cur u rest); [done | lia].
Qed.

Lemma join_split (sep s : string) :
  sep ≠ "" → PyStr.join sep (PyStr.split sep s) = s.
Proof.
  intros Hsep. unfold PyStr.split.
  by rewrite (join_split_go sep s 0 "" "" s).
Qed.

(** ** The insight is part of the text *)

Lemma infix_refl (s : string) : is_infix s s.
Proof. exists "", "". by rewrite append_nil_r. Qed.

Lemma infix_trans (a b c : string) :
  is_infix a b → is_infix b c → is_infix a c.
Proof.
  intros (x & y & ->) (u & v & ->). exists (u +:+ x), (y +:+ v).
  by rewrite !append_assoc.
Qed.

Lemma infix_prefix (p rest : string) : is_infix p (p +:+ rest).
Proof. by exists "", rest. Qed.

Lemma infix_suffix (a p : string) : is_infix p (a +:+ p).
Proof. exists a, "". by rewrite append_nil_r. Qed.

Lemma join_elem_infix (sep x : string) (l : list string) :
  x ∈ l → is_infix x (PyStr.join sep l).
Proof.
  induction l as [|y l IH]; intros Hx; [by apply elem_of_nil in Hx|].
  destruct l as [|z l].
  - apply list_elem_of_singleton in Hx as ->. apply infix_refl.
  - rewrite join_cons by done.
    apply elem_of_cons in Hx as [->|Hx]; [apply infix_prefix|].
    eapply infix_trans; [by apply IH|].
    rewrite <- append_assoc. apply infix_suffix.
Qed.

Lemma split_elem_infix (sep s x : string) :
  sep ≠ "" → x ∈ PyStr.split sep s → is_infix x s.
Proof.
  intros Hsep Hx. pose proof (join_elem_infix sep x _ Hx) as H.
  by rewrite join_split in H.
Qed.

Lemma lstrip_suffix (s : string) : ∃ a, s = a +:+ PyStr.lstrip s.
Proof.
  induction s as [|c s [a Ha]]; [by exists ""|]. simpl.
  destruct (PyStr.isspace c); [|by exists ""].
  exists (String c a). by rewrite append_cons, <- Ha.
Qed.

Lemma strip_infix (s : string) : is_infix (PyStr.strip s) s.
Proof.
  unfold PyStr.strip, PyStr.rstrip.
  destruct (lstrip_suffix s) as [a Ha].
  destruct (lstrip_suffix (String.rev (PyStr.lstrip s))) as [b Hb].
  apply (f_equal String.rev) in Hb.
  rewrite rev_involutive, rev_append in Hb.
  eapply infix_trans; [|exists a, ""; by rewrite append_nil_r].
  exists "", (String.rev b). exact Hb.
Qed.

Lemma take_infix (n : nat) (s : string) : is_infix (PyStr.take n s) s.
Proof.
  destruct (take_append n s) as [rest Hr]. by exists "", rest.
Qed.

Lemma clip150_parts (s : string) :
  ∃ core suffix : string,
    clip150 s = core +:+ suffix ∧ is_infix core s
    ∧ (suffix = "" ∨ suffix = "...").
Proof.
  unfold clip150. exists (PyStr.take 150 s). eexists.
  split; [done|]. split; [apply take_infix|].
  destruct (150 <? String.length s)%nat; auto.
Qed.

Lemma clip150_closed_parts (s : string) :
  ∃ core suffix : string,
    clip150 (spec_close_sentence s) = core +:+ suffix ∧ is_infix core s
    ∧ (suffix = "" ∨ suffix = "." ∨ suffix = "...").
Proof.
  unfold spec_close_sentence. destruct (PyStr.endswith s ".").
  { destruct (clip150_parts s) as (core & suffix & ? & ? & [?|?]);
      exists core, suffix; auto. }
  unfold clip150. rewrite length_append.
  change (String.length ".") with 1.
  destruct (150 <? String.length s + 1)%nat eqn:Hlen.
  - apply Nat.ltb_lt in Hlen.
    exists (PyStr.take 150 s), "...".
    rewrite take_append_l by lia.
    split; [done|]. split; [apply take_infix | auto].
  - apply Nat.ltb_ge in Hlen.
    exists s, ".".
    rewrite take_all by (rewrite length_append; simpl; lia).
    rewrite append_nil_r. split; [done|]. split; [apply infix_refl | auto].
Qed.

(** X17: the extractor never invents text: what it returns is a
    contiguous part of the text it was given, followed by nothing, by a
    period, or by three dots. *)
Theorem extract_key_insight_from_text (text context : string) :
  ∃ core suffix : string,
    _extract_key_insight text context = core +:+ suffix
    ∧ is_infix core text
    ∧ (suffix = "" ∨ suffix = "." ∨ suffix = "...").
Proof.
  rewrite extract_key_insight_refines. unfold spec_extract_key_insight.
  destruct (decide (text = "")) as [->|Hne].
  { exists "", "". split; [done|]. split; [apply infix_refl | auto]. }
  assert (∀ s, s ∈ PyStr.strip <$> PyStr.split ". " (PyStr.strip text) →
               is_infix s text) as Hsent.
  { intros s (p & -> & Hp)%list_elem_of_fmap.
    eapply infix_trans; [apply strip_infix|].
    eapply infix_trans; [|apply strip_infix].
    by apply (split_elem_infix ". "). }
  destruct (List.find has_key_phrase _) as [s|] eqn:Hk.
  { apply find_some in Hk as [Hin%list_elem_of_In _].
    destruct (clip150_closed_parts s) as (core & suffix & Heq & Hcore & Hsuf).
    exists core, suffix. split; [done|]. split; [|done].
    eapply infix_trans; [done | by apply Hsent]. }
  destruct (List.find (fun s => (30 <? String.length s)%nat) _)
    as [s|] eqn:Hl.
  { apply find_some in Hl as [Hin%list_elem_of_In _].
    destruct (clip150_parts s) as (core & suffix & Heq & Hcore & Hsuf).
    exists core, suffix. split; [done|]. split; [|tauto].
    eapply infix_trans; [done | by apply Hsent]. }
  destruct (clip150_parts (PyStr.strip text))
    as (core & suffix & Heq & Hcore & Hsuf).
  exists core, suffix. split; [done|]. split; [|tauto].
  eapply infix_trans; [done | apply strip_infix].
Qed.

(** ** A side without documents *)

Section EmptySide.

Variable set_iter : gset string → list string.
Variable py_str : pyval → string.
Hypothesis set_iter_perm : ∀ X, set_iter X ≡ₚ elements X.

(** X18: when the baseline document set holds no architecture (as after
    a failed load), every row is the ["Architecture only in enhanced"]
    row of its identifier; when the enhanced set holds none, every row
    is the ["Architecture only in baseline"] row; when both hold none,
    there is no row. *)
Theorem compare_all_empty_side (self : Comparator) :
  let rows := compare_all_architectures_tabular set_iter py_str self in
  (architecture_list self.(baseline_data) = [] →
   Forall (fun row => row = spec_only_enhanced_row row.(architecture_id))
          rows)
  ∧ (architecture_list self.(enhanced_data) = [] →
     Forall (fun row => row = spec_only_baseline_row row.(architecture_id))
            rows)
  ∧ (architecture_list self.(baseline_data) = [] →
     architecture_list self.(enhanced_data) = [] →
     rows = []).
Proof.
  intros rows. unfold rows. rewrite compare_all_fmap.
  rewrite (sorted_set_iter _ set_iter_perm).
  assert (∀ data, architecture_list data = [] → index_architectures data = ∅)
    as Hempty.
  { intros data Hd. unfold index_architectures.
    unfold architecture_list in Hd. by rewrite Hd. }
  split_and!.
  - intros Hb%Hempty. rewrite Hb.
    apply Forall_fmap, Forall_forall. intros arch_id _.
    simpl. by rewrite lookup_empty.
  - intros He%Hempty. rewrite He.
    apply Forall_fmap, Forall_forall. intros arch_id Hid.
    rewrite spec_sorted_names_elements, elem_of_elements in Hid.
    assert (is_Some (index_architectures (baseline_data self) !! arch_id))
      as [a Ha] by (apply elem_of_dom; set_solver).
    simpl. by rewrite Ha, lookup_empty.
  - intros Hb%Hempty He%Hempty. rewrite Hb, He. by vm_compute.
Qed.

End EmptySide.

(** X18 on a comparator whose baseline set is empty. *)
Lemma compare_all_empty_side_witness :
  Forall (fun row => row = spec_only_enhanced_row row.(architecture_id))
         (compare_all_architectures_tabular elements (fun _ => "")
            (comparator_of [] [arch_size_one; arch_two_keys_before])).
Proof.
  apply (compare_all_empty_side elements (fun _ => "")
           (fun X => reflexivity (elements X))).
  reflexivity.
Defined.

(** ** Attribute values that the configurations level does not see *)

(** C4 (as stated) fails, in two ways.  In [arch_shadowed_one] and
    [arch_shadowed_two] the only component key carries the codename set
    [{size}] on both sides and the first attribute [size] has values 1
    on one side and 2 on the other, yet [configurations_same] is 1: the
    second attribute [size], equal on both sides, replaces the first.
    In [arch_with_bare] and [arch_resized] every component key carries
    the same codenames, the key [db::c1_z] of the baseline side having
    none, and the values of [size] differ, yet [attributes_same] is 0:
    the key sets differ. *)
Lemma attributes_same_configurations_shadowed :
  let b1 := _extract_architecture_structure (Some arch_shadowed_one) in
  let e1 := _extract_architecture_structure (Some arch_shadowed_two) in
  let row1 := _create_comparison_row elements (fun _ => "")
                (comparator_of [arch_shadowed_one] [arch_shadowed_two]) "a1"
                (Some arch_shadowed_one) (Some arch_shadowed_two) in
  let b2 := _extract_architecture_structure (Some arch_with_bare) in
  let e2 := _extract_architecture_structure (Some arch_resized) in
  let row2 := _create_comparison_row elements (fun _ => "")
                (comparator_of [arch_with_bare] [arch_resized]) "a1"
                (Some arch_with_bare) (Some arch_resized) in
  ((∀ comp_key : string,
      spec_attribute_names b1 comp_key = spec_attribute_names e1 comp_key)
   ∧ attributes_search_space <$> flatten_components b1 !! "db::c1_x"
     = Some [raw_attribute "size" (PInt 1); raw_attribute "size" (PInt 3)]
   ∧ attributes_search_space <$> flatten_components e1 !! "db::c1_x"
     = Some [raw_attribute "size" (PInt 2); raw_attribute "size" (PInt 3)]
   ∧ row1.(attributes_same) = 1%Z
   ∧ row1.(configurations_same) = 1%Z)
  ∧ ((∀ comp_key : string,
        spec_attribute_names_or_empty b2 comp_key
        = spec_attribute_names_or_empty e2 comp_key)
     ∧ attributes_search_space <$> flatten_components b2 !! "db::c1_x"
       = Some [raw_attribute "size" (PInt 1)]
     ∧ attributes_search_space <$> flatten_components e2 !! "db::c1_x"
       = Some [raw_attribute "size" (PInt 2)]
     ∧ row2.(attributes_same) = 0%Z
     ∧ row2.(configurations_same) = 0%Z).
Proof.
  intros b1 e1 row1 b2 e2 row2. split.
  - split_and!; try by vm_compute.
    intros k. unfold spec_attribute_names. rewrite <- !lookup_fmap.
    f_equal.
  - split_and!; try by vm_compute.
    intros k. rewrite <- !get_all_attributes_names.
    change (_get_all_attributes b2)
      with (<[ "db::c1_z" := ∅ ]> (_get_all_attributes e2)).
    f_equal. apply absent_as_empty. by vm_compute.
Qed.
